(** * NS3-Learning: fat-tree static routing and the L2 learning switch

    A shallow embedding of
    - [src/Fat-Tree/DCN_FatTree_Custom.cc] (address plan and static route
      aggregation of the k = 4 fat-tree), and
    - [src/l2-switch-protocol/l2-switch-protocol.cc] (the MAC-learning
      switch protocol, its helper and the network of its [main]),
    together with the properties the specification states about them and
    further properties of the same code. *)

From Stdlib Require Import ZArith Lia Ascii String Decimal DecimalNat DecimalString.
From stdpp Require Import gmap strings list fin_maps.

Open Scope Z_scope.

(** ** Small utilities shared by both programs *)

(** [std::to_string] on a non-negative [int]. *)
Definition to_string (n : nat) : string :=
  NilEmpty.string_of_uint (Nat.to_uint n).

(** A counted [for (int i = lo; i < hi; i++)] loop whose body may abort. *)
Definition for_ {S : Type} (lo hi : nat) (body : nat → S → option S) (s : S)
    : option S :=
  foldl (λ acc i, acc ≫= body i) (Some s) (seq lo (hi - lo)).

(** ** IPv4 addresses and masks (32-bit values, as in [ns3::Ipv4Address]) *)

Definition digit_of (c : ascii) : option Z :=
  let n := Z.of_nat (nat_of_ascii c) in
  if (48 <=? n) && (n <=? 57) then Some (n - 48) else None.

(** Reads the decimal fields of a dotted string, left to right. *)
Fixpoint octets_go (s : string) (cur : option Z) (acc : list Z)
    : option (list Z) :=
  match s with
  | EmptyString => c ← cur; Some (acc ++ [c])
  | String ch s' =>
      if decide (ch = "."%char)
      then c ← cur; octets_go s' None (acc ++ [c])
      else d ← digit_of ch; octets_go s' (Some (10 * default 0 cur + d)) acc
  end.

(** The [Ipv4Address] and [Ipv4Mask] constructors from a C string: the
    32-bit value of a dotted quad; a string that is not four decimal fields
    in 0..255 has no value. *)
Definition Ipv4Address (s : string) : option Z :=
  match octets_go s None [] with
  | Some [a; b; c; d] =>
      if forallb (λ o, o <=? 255) [a; b; c; d]
      then Some (Z.lor (Z.shiftl a 24) (Z.lor (Z.shiftl b 16) (Z.lor (Z.shiftl c 8) d)))
      else None
  | _ => None
  end.

Definition Ipv4Mask (s : string) : option Z := Ipv4Address s.

(** [Ipv4Mask::IsMatch (a, b)]: equal under the mask. *)
Definition IsMatch (mask a b : Z) : bool :=
  bool_decide (Z.land a mask = Z.land b mask).

(** [Ipv4Mask::GetPrefixLength]: shift the 32-bit mask left until it is zero,
    counting the shifts. *)
Fixpoint prefix_go (fuel : nat) (mask : Z) : Z :=
  match fuel with
  | O => 0
  | S f => if decide (mask = 0) then 0
           else 1 + prefix_go f (Z.land (Z.shiftl mask 1) 4294967295)
  end.

Definition GetPrefixLength (mask : Z) : Z := prefix_go 32 mask.

Module FatTree.

(** *** Nodes

    [pods[pod].Get (idx)] is [PodNode pod idx]: indices 0-3 are the servers,
    4-5 the access switches, 6-7 the aggregation switches of the pod;
    [coreNodes.Get (c)] is [CoreNode c].  A handle is only an identity: the
    sizes of the containers are not part of the model. *)
Inductive Node : Type :=
  | PodNode (pod idx : nat)
  | CoreNode (coreId : nat).

#[global] Instance Node_eq_dec : EqDecision Node.
Proof. solve_decision. Defined.

#[global] Instance Node_countable : Countable Node.
Proof.
  refine (inj_countable'
    (λ n, match n with
          | PodNode p i => inl (p, i)
          | CoreNode c => inr c
          end)
    (λ x, match x with
          | inl (p, i) => PodNode p i
          | inr c => CoreNode c
          end) _).
  by intros [].
Defined.

(** *** The simulator objects the program manipulates *)

(** [Ipv4AddressHelper]: the network set by [SetBase] and the next host
    number to hand out. *)
Record Ipv4AddressHelper : Type := mkHelper {
  m_network : Z;
  m_mask : Z;
  m_address : Z
}.

(** One IPv4 interface of a node: its address, its mask and the node at the
    other end of the point-to-point channel ([None] for the loopback). *)
Record Ipv4Interface : Type := mkIface {
  if_local : Z;
  if_mask : Z;
  if_peer : option Node
}.

(** [Ipv4RoutingTableEntry] as built by [AddNetworkRouteTo]. *)
Record Ipv4RoutingTableEntry : Type := mkRoute {
  dest : Z;
  destMask : Z;
  gateway : Z;
  interface : Z
}.

#[global] Instance Ipv4RoutingTableEntry_eq_dec : EqDecision Ipv4RoutingTableEntry.
Proof. solve_decision. Defined.

(** A point-to-point link with the subnet string passed to [SetBase] for it
    and the key under which its interfaces are stored. *)
Record Link : Type := mkLink {
  link_a : Node;
  link_b : Node;
  link_subnet : string;
  link_key : string
}.

(** The state [main] builds up: the address helper, the global [interfaces]
    map, every node's interface list (interface 0 is the loopback), every
    node's static routes in installation order, and the links in creation
    order. *)
Record World : Type := mkWorld {
  address : Ipv4AddressHelper;
  interfaces : gmap string (list Z);
  ipv4 : gmap Node (list Ipv4Interface);
  staticRouting : gmap Node (list Ipv4RoutingTableEntry);
  links : list Link
}.

#[global] Instance Ipv4AddressHelper_eq_dec : EqDecision Ipv4AddressHelper.
Proof. solve_decision. Defined.

#[global] Instance Ipv4Interface_eq_dec : EqDecision Ipv4Interface.
Proof. solve_decision. Defined.

#[global] Instance Link_eq_dec : EqDecision Link.
Proof. solve_decision. Defined.

#[global] Instance World_eq_dec : EqDecision World.
Proof. solve_decision. Defined.

Definition loopback : Ipv4Interface :=
  mkIface 2130706433 4278190080 None.

Definition mask30 : string := "255.255.255.252".

(** [stack.Install]: the node gets its IPv4 stack with the loopback
    interface. *)
Definition stack_Install (n : Node) (w : World) : World :=
  mkWorld (address w) (interfaces w) (<[n := [loopback]]> (ipv4 w))
          (staticRouting w) (links w).

(** [address.SetBase (subnet, mask)]: the helper keeps the network part of
    [subnet]; host numbering restarts at 0.0.0.1. *)
Definition SetBase (subnet mask : string) (w : World) : option World :=
  net ← Ipv4Address subnet;
  m ← Ipv4Mask mask;
  Some (mkWorld (mkHelper (Z.land net m) m 1) (interfaces w) (ipv4 w)
                (staticRouting w) (links w)).

(** [Ipv4AddressHelper::NewAddress]: network part or-ed with the host
    number, which is then incremented.  The simulator also records every
    address it hands out and stops on a duplicate, and it stops when the
    host numbers of the subnet run out; neither check is part of the model,
    and the program with [K = 4] reaches neither. *)
Definition NewAddress (h : Ipv4AddressHelper) : Z * Ipv4AddressHelper :=
  (Z.lor (m_network h) (m_address h),
   mkHelper (m_network h) (m_mask h) (m_address h + 1)).

Definition add_interface (n : Node) (i : Ipv4Interface)
    (m : gmap Node (list Ipv4Interface)) : gmap Node (list Ipv4Interface) :=
  <[n := default [] (m !! n) ++ [i]]> m.

(** [helper.Install (a, b)] followed by [address.Assign (link)]: the device
    on [a] gets the first address, the device on [b] the second; each node
    gets a new interface.  The result is the [Ipv4InterfaceContainer]
    (here: its two addresses). *)
Definition Assign (a b : Node) (w : World) : list Z * World :=
  let '(addr0, h1) := NewAddress (address w) in
  let '(addr1, h2) := NewAddress h1 in
  let m := m_mask (address w) in
  ([addr0; addr1],
   mkWorld h2 (interfaces w)
     (add_interface b (mkIface addr1 m (Some a))
        (add_interface a (mkIface addr0 m (Some b)) (ipv4 w)))
     (staticRouting w) (links w)).

(** One link of section 4 of [main]: install, set the base, assign, and
    store the interfaces under [key]. *)
Definition connect (a b : Node) (subnet key : string) (w : World)
    : option World :=
  w1 ← SetBase subnet mask30 w;
  let '(iface, w2) := Assign a b w1 in
  Some (mkWorld (address w2) (<[key := iface]> (interfaces w2)) (ipv4 w2)
                (staticRouting w2) (links w2 ++ [mkLink a b subnet key])).

Section Main.

(** The fat-tree parameter [K] of the source, and the constants derived
    from it. *)
Variable K : nat.

Definition NUM_PODS : nat := K.
Definition NUM_CORE : nat := ((K / 2) * (K / 2))%nat.

(** Section 3: node creation and stack installation. *)
Definition create_nodes (w : World) : option World :=
  w ← for_ 0 NUM_PODS (λ i, for_ 0 8 (λ idx w, Some (stack_Install (PodNode i idx) w))) w;
  for_ 0 NUM_CORE (λ c w, Some (stack_Install (CoreNode c) w)) w.

Definition server_subnet (pod server : nat) : string :=
  let accessSwitch := if (server <? 2)%nat then 4%nat else 5%nat in
  let switchId := (accessSwitch - 4)%nat in
  let offset := (server * 4)%nat in
  "10." +:+ to_string pod +:+ "." +:+ to_string switchId +:+ "." +:+ to_string offset.

Definition lower_upper_subnet (pod lower upper : nat) : string :=
  let lowerId := (lower - 4)%nat in
  let upperId := (upper - 6)%nat in
  let linkId := (lowerId * 2 + upperId)%nat in
  let offset := (16 + linkId * 4)%nat in
  "10." +:+ to_string pod +:+ "." +:+ to_string (2 + upperId) +:+ "." +:+ to_string offset.

Definition core_subnet (coreLink : nat) : string :=
  let subnet3 := (coreLink / 64)%nat in
  let subnet4 := ((coreLink mod 64) * 4)%nat in
  "10.10." +:+ to_string subnet3 +:+ "." +:+ to_string subnet4.

(** Section 4.1: the links inside each pod. *)
Definition build_pods (w : World) : option World :=
  for_ 0 NUM_PODS (λ pod w,
    w ← for_ 0 4 (λ server w,
           let accessSwitch := if (server <? 2)%nat then 4%nat else 5%nat in
           let key := "pod" +:+ to_string pod +:+ "_server" +:+ to_string server in
           connect (PodNode pod server) (PodNode pod accessSwitch)
                   (server_subnet pod server) key w) w;
    for_ 4 6 (λ lower, for_ 6 8 (λ upper w,
           let lowerId := (lower - 4)%nat in
           let upperId := (upper - 6)%nat in
           let key := "pod" +:+ to_string pod +:+ "_lower" +:+ to_string lowerId
                      +:+ "_upper" +:+ to_string upperId in
           connect (PodNode pod lower) (PodNode pod upper)
                   (lower_upper_subnet pod lower upper) key w)) w) w.

(** Section 4.2: aggregation-to-core links; the running counter [coreLink]
    is threaded next to the world. *)
Definition build_core (w : World) : option World :=
  fst <$>
  for_ 0 (K / 2) (λ i, for_ 0 (K / 2) (λ j,
    let coreId := (i * (K / 2) + j)%nat in
    for_ 0 NUM_PODS (λ pod '(w, coreLink),
      let aggrSwitch := (6 + i)%nat in
      let key := "pod" +:+ to_string pod +:+ "_aggr" +:+ to_string i
                 +:+ "_core" +:+ to_string coreId in
      w ← connect (PodNode pod aggrSwitch) (CoreNode coreId)
                  (core_subnet coreLink) key w;
      Some (w, S coreLink)))) (w, 0%nat).

End Main.

(** *** Section 5 of [main]: the static routes *)

(** [interfaces[key].GetAddress (i)]; there is no value when nothing was
    stored under [key] or the container has no [i]-th address. *)
Definition GetAddress (key : string) (i : nat) (w : World) : option Z :=
  c ← interfaces w !! key; c !! i.

(** [ipv4->GetInterfaceForAddress (a)] on node [n]: the index of the
    interface holding [a], or -1. *)
Definition GetInterfaceForAddress (n : Node) (a : Z) (w : World) : Z :=
  match list_find (λ i, if_local i = a) (default [] (ipv4 w !! n)) with
  | Some (idx, _) => Z.of_nat idx
  | None => -1
  end.

(** The entry is appended to the node's table; the interface argument is a
    [uint32_t]. *)
Definition add_route (n : Node) (r : Ipv4RoutingTableEntry) (w : World) : World :=
  mkWorld (address w) (interfaces w) (ipv4 w)
          (<[n := default [] (staticRouting w !! n) ++ [r]]> (staticRouting w))
          (links w).

Definition AddNetworkRouteTo (n : Node) (network mask : string)
    (nextHop interface : Z) (w : World) : option World :=
  net ← Ipv4Address network;
  m ← Ipv4Mask mask;
  Some (add_route n (mkRoute net m nextHop (interface mod 4294967296)) w).

(** [SetDefaultRoute (nextHop, interface)]: the route to 0.0.0.0/0. *)
Definition SetDefaultRoute (n : Node) (nextHop interface : Z) (w : World)
    : option World :=
  Some (add_route n (mkRoute 0 0 nextHop (interface mod 4294967296)) w).

Section Routing.

Variable K : nat.

(** 5.1: every server gets a default route to its access switch. *)
Definition configure_servers (w : World) : option World :=
  for_ 0 (NUM_PODS K) (λ pod, for_ 0 4 (λ server w,
    let key := "pod" +:+ to_string pod +:+ "_server" +:+ to_string server in
    gatewayIP ← GetAddress key 1 w;
    SetDefaultRoute (PodNode pod server) gatewayIP 1 w)) w.

(** 5.2: access switches. *)
Definition configure_access (w : World) : option World :=
  for_ 0 (NUM_PODS K) (λ pod, for_ 0 2 (λ accessId w,
    let node := PodNode pod (4 + accessId) in
    let key := "pod" +:+ to_string pod +:+ "_lower" +:+ to_string accessId
               +:+ "_upper0" in
    nextHop ← GetAddress key 1 w;
    own ← GetAddress key 0 w;
    let outInterface := GetInterfaceForAddress node own w in
    let otherAccessId := if decide (accessId = 0%nat) then 1%nat else 0%nat in
    let switchId := otherAccessId in
    let otherSubnet := "10." +:+ to_string pod +:+ "." +:+ to_string switchId
                       +:+ ".0" in
    w ← AddNetworkRouteTo node otherSubnet "255.255.255.0" nextHop outInterface w;
    for_ 0 (NUM_PODS K) (λ otherPod w,
      if decide (otherPod ≠ pod) then
        let subnet := "10." +:+ to_string otherPod +:+ ".0.0" in
        AddNetworkRouteTo node subnet "255.255.0.0" nextHop outInterface w
      else Some w) w)) w.

(** 5.3: aggregation switches. *)
Definition configure_aggregation (w : World) : option World :=
  for_ 0 (NUM_PODS K) (λ pod, for_ 0 2 (λ aggrId w,
    let node := PodNode pod (6 + aggrId) in
    w ← for_ 0 2 (λ accessId w,
           let key := "pod" +:+ to_string pod +:+ "_lower" +:+ to_string accessId
                      +:+ "_upper" +:+ to_string aggrId in
           nextHop ← GetAddress key 0 w;
           own ← GetAddress key 1 w;
           let outInterface := GetInterfaceForAddress node own w in
           let serverSubnet := "10." +:+ to_string pod +:+ "." +:+ to_string accessId
                               +:+ ".0" in
           AddNetworkRouteTo node serverSubnet "255.255.255.0" nextHop outInterface w) w;
    for_ 0 (K / 2) (λ j w,
      let coreId := (aggrId * (K / 2) + j)%nat in
      let coreKey := "pod" +:+ to_string pod +:+ "_aggr" +:+ to_string aggrId
                     +:+ "_core" +:+ to_string coreId in
      coreNextHop ← GetAddress coreKey 1 w;
      for_ 0 (NUM_PODS K) (λ otherPod w,
        if decide (otherPod ≠ pod) then
          let subnet := "10." +:+ to_string otherPod +:+ ".0.0" in
          own ← GetAddress coreKey 0 w;
          AddNetworkRouteTo node subnet "255.255.0.0" coreNextHop
                            (GetInterfaceForAddress node own w) w
        else Some w) w) w)) w.

(** 5.4: core switches. *)
Definition configure_core (w : World) : option World :=
  for_ 0 (K / 2) (λ i, for_ 0 (K / 2) (λ j w,
    let coreId := (i * (K / 2) + j)%nat in
    let node := CoreNode coreId in
    for_ 0 (NUM_PODS K) (λ pod w,
      let key := "pod" +:+ to_string pod +:+ "_aggr" +:+ to_string i
                 +:+ "_core" +:+ to_string coreId in
      nextHop ← GetAddress key 0 w;
      let subnet := "10." +:+ to_string pod +:+ ".0.0" in
      own ← GetAddress key 1 w;
      AddNetworkRouteTo node subnet "255.255.0.0" nextHop
                        (GetInterfaceForAddress node own w) w) w)) w.

Definition configure_routing (w : World) : option World :=
  w ← configure_servers w;
  w ← configure_access w;
  w ← configure_aggregation w;
  configure_core w.

End Routing.

Definition world0 (h : Ipv4AddressHelper) : World := mkWorld h ∅ ∅ ∅ [].

(** [Ipv4AddressHelper address;] before any [SetBase]. *)
Definition helper0 : Ipv4AddressHelper := mkHelper 4294967295 0 4294967295.

(** Sections 3 and 4 of [main]: the topology with its address plan. *)
Definition topology_from (h : Ipv4AddressHelper) (K : nat) : option World :=
  w ← create_nodes K (world0 h);
  w ← build_pods K w;
  build_core K w.

Definition topology (K : nat) : option World := topology_from helper0 K.

(** Sections 3 to 5 of [main], started with the address helper in state
    [h]. *)
Definition main_from (h : Ipv4AddressHelper) (K : nat) : option World :=
  w ← topology_from h K; configure_routing K w.

Definition main (K : nat) : option World := main_from helper0 K.

(** What the computation hands on: the address plan (the stored interface
    addresses and the links with their subnets), every node's interfaces
    and every node's route table. *)
Definition outputs (w : World)
    : gmap string (list Z) * list Link * gmap Node (list Ipv4Interface)
      * gmap Node (list Ipv4RoutingTableEntry) :=
  (interfaces w, links w, ipv4 w, staticRouting w).

(** The four passes of section 5, to be run in any order. *)
Inductive Phase : Type := Servers | Access | Aggregation | Core.

#[global] Instance Phase_eq_dec : EqDecision Phase.
Proof. solve_decision. Defined.

Definition configure (K : nat) (p : Phase) : World → option World :=
  match p with
  | Servers => configure_servers K
  | Access => configure_access K
  | Aggregation => configure_aggregation K
  | Core => configure_core K
  end.

Definition configure_in_order (K : nat) (order : list Phase) (w : World)
    : option World :=
  foldl (λ acc p, acc ≫= configure K p) (Some w) order.

(** The table the program installed on a node. *)
Definition table (w : World) (n : Node) : list Ipv4RoutingTableEntry :=
  default [] (staticRouting w !! n).

Definition ifaces (w : World) (n : Node) : list Ipv4Interface :=
  default [] (ipv4 w !! n).

(** *** Forwarding

    The forwarding engine that consumes the tables: a node that holds the
    destination address accepts the packet; otherwise the longest matching
    prefix among the routes of its attached subnets and its installed routes
    decides, and the packet leaves through the entry's interface to the node
    at the other end of that point-to-point link. *)

(** The route to the attached subnet of every interface (no gateway). *)
Definition connected_routes (w : World) (n : Node) : list Ipv4RoutingTableEntry :=
  imap (λ i ifc, mkRoute (Z.land (if_local ifc) (if_mask ifc)) (if_mask ifc) 0
                         (Z.of_nat i)) (ifaces w n).

Definition routing_table (w : World) (n : Node) : list Ipv4RoutingTableEntry :=
  connected_routes w n ++ table w n.

Definition matching (t : list Ipv4RoutingTableEntry) (d : Z)
    : list Ipv4RoutingTableEntry :=
  filter (λ r, IsMatch (destMask r) d (dest r) = true) t.

Definition longest_mask (t : list Ipv4RoutingTableEntry) : Z :=
  foldr Z.max 0 (map (λ r, GetPrefixLength (destMask r)) t).

(** All entries that match [d] with the longest prefix, in table order. *)
Definition lpm_candidates (t : list Ipv4RoutingTableEntry) (d : Z)
    : list Ipv4RoutingTableEntry :=
  filter (λ r, GetPrefixLength (destMask r) = longest_mask (matching t d))
         (matching t d).

Definition owns (w : World) (n : Node) (d : Z) : bool :=
  existsb (λ i, if_local i =? d) (ifaces w n).

Definition peer_on (w : World) (n : Node) (ifidx : Z) : option Node :=
  i ← ifaces w n !! Z.to_nat ifidx; if_peer i.

Inductive Fate : Type := Delivered | Dropped | OutOfFuel.

#[global] Instance Fate_eq_dec : EqDecision Fate.
Proof. solve_decision. Defined.

(** Every way a packet for [d] can travel from [n]: the nodes visited,
    starting with [n], and how the journey ends.  Where several entries tie
    for the longest prefix, every one of them is followed. *)
Fixpoint forward (fuel : nat) (w : World) (n : Node) (d : Z)
    : list (list Node * Fate) :=
  if owns w n d then [([n], Delivered)]
  else match fuel with
       | O => [([n], OutOfFuel)]
       | S f =>
           match lpm_candidates (routing_table w n) d with
           | [] => [([n], Dropped)]
           | cs =>
               flat_map (λ r,
                 match peer_on w n (interface r) with
                 | None => [([n], Dropped)]
                 | Some p => map (λ pf, (n :: pf.1, pf.2)) (forward f w p d)
                 end) cs
           end
       end.

(** The address of server [server] of pod [pod]: its end of its link. *)
Definition server_address (w : World) (pod server : nat) : option Z :=
  GetAddress ("pod" +:+ to_string pod +:+ "_server" +:+ to_string server) 0 w.


(** *** The k = 4 fabric of the program *)

Definition fabric : World :=
  Eval vm_compute in default (world0 helper0) (main 4).

(** The sixteen servers as (pod, server) pairs, and their nodes. *)
Definition servers : list (nat * nat) :=
  pod ← seq 0 4; server ← seq 0 4; [(pod, server)].

Definition server_node (s : nat * nat) : Node := PodNode s.1 s.2.

Definition access_of (s : nat * nat) : nat := if (s.2 <? 2)%nat then 4%nat else 5%nat.

(** The nodes strictly between the first and the last of a journey. *)
Definition intermediate (path : list Node) : list Node :=
  removelast (tail path).

Definition is_switch (n : Node) : bool :=
  match n with
  | PodNode _ idx => bool_decide (4 ≤ idx)%nat
  | CoreNode _ => true
  end.

(** The hop bounds as the specification gives them: 0, 3, 5. *)
Definition hop_bound_stated (src dst : nat * nat) : nat :=
  if decide (src.1 = dst.1)
  then if decide (access_of src = access_of dst) then 0%nat else 3%nat
  else 5%nat.

(** The hop bounds the fabric meets: the shared access switch itself is
    on the way. *)
Definition hop_bound (src dst : nat * nat) : nat :=
  if decide (src.1 = dst.1)
  then if decide (access_of src = access_of dst) then 1%nat else 3%nat
  else 5%nat.

Definition journey_ok (bound : nat) (dst : Node) (pf : list Node * Fate) : Prop :=
  pf.2 = Delivered ∧ last pf.1 = Some dst ∧ NoDup pf.1 ∧
  Forall (λ n, is_switch n = true) (intermediate pf.1) ∧
  (length (intermediate pf.1) ≤ bound)%nat.

(** Every journey of a packet from server [src] to the address of server
    [dst] ends at [dst] within [bound] switches, and there is one. *)
Definition reaches (w : World) (bound : nat) (src dst : nat * nat) : Prop :=
  ∃ d, server_address w dst.1 dst.2 = Some d ∧
       forward 16 w (server_node src) d ≠ [] ∧
       Forall (journey_ok bound (server_node dst))
              (forward 16 w (server_node src) d).

#[global] Instance exists_Some_dec {A} (o : option A) (P : A → Prop)
    `{!∀ x, Decision (P x)} : Decision (∃ x, o = Some x ∧ P x).
Proof.
  destruct o as [x|].
  - destruct (decide (P x)) as [HP|HP].
    + left. by exists x.
    + right. intros (y & [= <-] & ?). done.
  - right. by intros (y & [=] & ?).
Defined.

#[global] Instance journey_ok_dec bound dst pf : Decision (journey_ok bound dst pf).
Proof. unfold journey_ok. apply _. Defined.

#[global] Instance reaches_dec w bound src dst : Decision (reaches w bound src dst).
Proof. unfold reaches. apply _. Defined.

(** Instance search treats these notions as atoms. *)
#[global] Typeclasses Opaque journey_ok reaches.

(** *** Notions used to state the properties of the address plan *)

(** The network number of the [i]-th link of the plan. *)
Definition link_net (w : World) (i : nat) : option Z :=
  links w !! i ≫= λ l, Ipv4Address (link_subnet l).

(** [a] lies in the /30 whose base is [net]. *)
Definition in_subnet30 (a net : Z) : Prop := IsMatch 4294967292 a net = true.

(** *** Notions used to state the properties of the route tables *)

(** The 32-bit value of a dotted quad written by the program (0 when the
    string is not an address). *)
Definition quad (s : string) : Z := default 0 (Ipv4Address s).

(** The destination prefix of an entry. *)
Definition prefix_of (r : Ipv4RoutingTableEntry) : Z * Z := (dest r, destMask r).

(** The entries of a table for one destination prefix. *)
Definition entries_for (t : list Ipv4RoutingTableEntry) (p : Z * Z)
    : list Ipv4RoutingTableEntry :=
  filter (λ r, prefix_of r = p) t.

(** The interface leads to a node of pod [pod]. *)
Definition peer_in_pod (pod : nat) (i : Ipv4Interface) : bool :=
  match if_peer i with
  | Some (PodNode p _) => bool_decide (p = pod)
  | _ => false
  end.

(** The /16 aggregate of a pod and the /24 aggregate of an access switch. *)
Definition pod_prefix (pod : nat) : Z * Z :=
  (quad ("10." +:+ to_string pod +:+ ".0.0"), quad "255.255.0.0").

Definition access_prefix (pod accessId : nat) : Z * Z :=
  (quad ("10." +:+ to_string pod +:+ "." +:+ to_string accessId +:+ ".0"),
   quad "255.255.255.0").


(** Two entries claim one destination prefix through different next hops. *)
Definition conflicting (r1 r2 : Ipv4RoutingTableEntry) : Prop :=
  prefix_of r1 = prefix_of r2 ∧ gateway r1 ≠ gateway r2.

Definition conflict_free (t : list Ipv4RoutingTableEntry) : Prop :=
  Forall (λ r1, Forall (λ r2, ¬ conflicting r1 r2) t) t.

#[global] Instance conflicting_dec r1 r2 : Decision (conflicting r1 r2).
Proof. unfold conflicting. apply _. Defined.

#[global] Instance conflict_free_dec t : Decision (conflict_free t).
Proof. unfold conflict_free. apply _. Defined.

#[global] Typeclasses Opaque conflicting conflict_free.

(** All nodes of the k = 4 fabric. *)
Definition fabric_nodes : list Node :=
  (pod ← seq 0 4; idx ← seq 0 8; [PodNode pod idx]) ++ (CoreNode <$> seq 0 4).

Definition is_aggregation (n : Node) : bool :=
  match n with
  | PodNode _ idx => bool_decide (6 ≤ idx)%nat
  | CoreNode _ => false
  end.

Definition in_pod (pod : nat) (n : Node) : bool :=
  match n with
  | PodNode p _ => bool_decide (p = pod)
  | CoreNode _ => false
  end.

(** The key of the link between an access switch and aggregation switch
    [upperId] of its pod, and of the link between an aggregation switch and
    a core switch. *)
Definition lower_upper_key (pod lowerId upperId : nat) : string :=
  "pod" +:+ to_string pod +:+ "_lower" +:+ to_string lowerId
  +:+ "_upper" +:+ to_string upperId.

Definition aggr_core_key (pod aggrId coreId : nat) : string :=
  "pod" +:+ to_string pod +:+ "_aggr" +:+ to_string aggrId
  +:+ "_core" +:+ to_string coreId.


(** The core switches an aggregation switch is attached to, in interface
    order. *)
Definition core_neighbours (w : World) (n : Node) : list Node :=
  omap (λ i, match if_peer i with
             | Some (CoreNode c) => Some (CoreNode c)
             | _ => None
             end) (ifaces w n).


(** *** Notions used to state that the computation is deterministic *)

(** Two worlds agree on everything but the state of the address helper. *)
Definition sim (w1 w2 : World) : Prop := outputs w1 = outputs w2.

(** A step takes related states to related results (or fails on both). *)
Definition respects {S : Type} (R : relation S) (f : S → option S) : Prop :=
  ∀ s1 s2, R s1 s2 → option_Forall2 R (f s1) (f s2).


(** *** The helper function declared next to [main]

    [GetFatTreeIP (pod, sw, id)] for non-negative arguments. *)
Definition GetFatTreeIP (pod sw id : nat) : string :=
  "10." +:+ to_string pod +:+ "." +:+ to_string sw +:+ "." +:+ to_string id.

(** *** Notions used to state what the sections of [main] do to the world *)

(** [w'] keeps the address helper, the stored interfaces, the nodes'
    interfaces and the links of [w], and every table of [w] is an initial
    segment of the table in [w']. *)
Definition extends (w w' : World) : Prop :=
  address w' = address w ∧ interfaces w' = interfaces w ∧
  ipv4 w' = ipv4 w ∧ links w' = links w ∧
  ∀ n, table w n `prefix_of` table w' n.

(** The nodes at the other end of a node's links, in interface order. *)
Definition neighbours (w : World) (n : Node) : list Node :=
  omap if_peer (ifaces w n).

(** All addresses assigned to interfaces of the fabric's links. *)
Definition assigned_addresses (w : World) : list Z :=
  l ← links w; default [] (interfaces w !! link_key l).

(** *** Notions used to state that forwarding terminates *)

(** The first and the last address an entry's prefix covers. *)
Definition covers (r : Ipv4RoutingTableEntry) : Z * Z :=
  (Z.land (dest r) (destMask r),
   Z.land (dest r) (destMask r) + (4294967295 - destMask r)).

(** The addresses at which the answer of some test made while forwarding
    (an entry's prefix test, or the comparison with an interface address)
    can change, over the nodes [ns]. *)
Definition boundaries (w : World) (ns : list Node) : list Z :=
  remove_dups
    (n ← ns;
       (r ← routing_table w n; [(covers r).1; (covers r).2 + 1]) ++
       (i ← ifaces w n; [if_local i; if_local i + 1])).

(** The largest of [0] and the boundaries not above [d]. *)
Definition floor_boundary (bs : list Z) (d : Z) : Z :=
  foldr Z.max 0 (filter (λ b, b ≤ d) bs).

Definition prefix_masks : list Z :=
  [0; 4278190080; 4294901760; 4294967040; 4294967292].

(** How a journey may end, and what it looks like, when forwarding is
    sound. *)
Definition journey_sound (w : World) (d : Z) (pf : list Node * Fate) : Prop :=
  pf.2 ≠ OutOfFuel ∧ NoDup pf.1 ∧ (length pf.1 ≤ 7)%nat ∧
  (pf.2 = Delivered → ∃ m, last pf.1 = Some m ∧ owns w m d = true).

#[global] Instance journey_sound_dec w d pf : Decision (journey_sound w d pf).
Proof. unfold journey_sound. apply _. Defined.
#[global] Typeclasses Opaque journey_sound.


(** The base and the top address of every link's /30: the two addresses of
    an attached subnet that no interface holds. *)
Definition link_edge_addresses (w : World) : list Z :=
  l ← links w;
  from_option (λ net, [net; net + 3]) [] (Ipv4Address (link_subnet l)).

(** Both lists for the k = 4 fabric, evaluated once. *)
Definition fabric_boundaries : list Z :=
  Eval vm_compute in boundaries fabric fabric_nodes.

Definition fabric_edges : list Z :=
  Eval vm_compute in link_edge_addresses fabric.

(** *** The lookup of [Ipv4StaticRouting]

    [Ipv4StaticRouting::LookupStatic], which the stack of every node runs on
    its routes in the order they were added (the routes to the attached
    subnets first): a matching entry with a shorter prefix than the best so
    far is skipped, any other matching entry replaces the best so far, and a
    /32 match ends the search.  Every route of the program has the default
    metric 0, so the metric comparison of the loop never skips an entry and
    is left out. *)
Fixpoint LookupStatic_from (t : list Ipv4RoutingTableEntry) (d : Z)
    (rtentry : option Ipv4RoutingTableEntry) (longest_mask : Z)
    : option Ipv4RoutingTableEntry :=
  match t with
  | [] => rtentry
  | j :: t =>
      if IsMatch (destMask j) d (dest j) then
        let masklen := GetPrefixLength (destMask j) in
        if decide (masklen < longest_mask)
        then LookupStatic_from t d rtentry longest_mask
        else if decide (masklen = 32) then Some j
             else LookupStatic_from t d (Some j) masklen
      else LookupStatic_from t d rtentry longest_mask
  end.

Definition LookupStatic (t : list Ipv4RoutingTableEntry) (d : Z)
    : option Ipv4RoutingTableEntry :=
  LookupStatic_from t d None 0.

(** The journey of a packet for [d] from [n] when every node forwards along
    the one route its lookup returns: the nodes visited and how it ends. *)
Fixpoint static_journey (fuel : nat) (w : World) (n : Node) (d : Z)
    : list Node * Fate :=
  if owns w n d then ([n], Delivered)
  else match fuel with
       | O => ([n], OutOfFuel)
       | S f =>
           match LookupStatic (routing_table w n) d with
           | None => ([n], Dropped)
           | Some r =>
               match peer_on w n (interface r) with
               | None => ([n], Dropped)
               | Some p => let pf := static_journey f w p d in (n :: pf.1, pf.2)
               end
           end
       end.

End FatTree.

Module L2Switch.

(** *** The learning switch of [l2-switch-protocol.cc]

    A [Mac48Address] is its 48-bit value, a [Ptr<NetDevice>] the identity
    of the device object (the null pointer is [None]). *)
Abbreviation Mac48Address := Z (only parsing).
Abbreviation NetDevice := nat (only parsing).

Definition broadcast : Z := 281474976710655.

Definition IsBroadcast (m : Mac48Address) : bool := bool_decide (m = broadcast).

Section Protocol.

(** The packet contents are never inspected. *)
Context {Packet : Type}.

(** One call of [SendFrom] on device [via]. *)
Record Sent : Type := mkSent {
  via : NetDevice;
  s_packet : Packet;
  s_source : Mac48Address;
  s_destination : Mac48Address;
  s_protocol : Z
}.

(** The protocol object: the devices of [m_node], in index order, and the
    MAC learning table. *)
Record L2SwitchProtocol : Type := mkProtocol {
  node_devices : list NetDevice;
  m_macTable : gmap Z NetDevice
}.

Definition Learn (source : Mac48Address) (inDevice : NetDevice)
    (st : L2SwitchProtocol) : L2SwitchProtocol :=
  match m_macTable st !! source with
  | None => mkProtocol (node_devices st) (<[source := inDevice]> (m_macTable st))
  | Some port =>
      if decide (port ≠ inDevice)
      then mkProtocol (node_devices st) (<[source := inDevice]> (m_macTable st))
      else st
  end.

Definition GetLearnedPort (destination : Mac48Address) (st : L2SwitchProtocol)
    : option NetDevice :=
  m_macTable st !! destination.

Definition ForwardUnicast (outDevice : NetDevice) (packet : Packet)
    (protocol : Z) (source destination : Mac48Address) : list Sent :=
  [mkSent outDevice packet source destination protocol].

(** The loop over [GetDevice (i)], [i < GetNDevices ()], skipping the
    ingress device. *)
Definition ForwardBroadcast (inDevice : NetDevice) (packet : Packet)
    (protocol : Z) (source destination : Mac48Address) (st : L2SwitchProtocol)
    : list Sent :=
  (λ device, mkSent device packet source destination protocol) <$>
  filter (λ device, device ≠ inDevice) (node_devices st).

(** What one invocation of the receive callback does: its return value, the
    protocol state afterwards, and the frames sent, in order. *)
Record Handled : Type := mkHandled {
  returned : bool;
  after : L2SwitchProtocol;
  sent : list Sent
}.

Definition ReceiveFromDevice (inDevice : NetDevice) (packet : Packet)
    (protocol : Z) (from to : Mac48Address) (st : L2SwitchProtocol) : Handled :=
  let srcMac := from in
  let dstMac := to in
  let st := Learn srcMac inDevice st in
  if IsBroadcast dstMac then
    mkHandled true st (ForwardBroadcast inDevice packet protocol srcMac dstMac st)
  else
    match GetLearnedPort dstMac st with
    | Some outDevice =>
        if decide (outDevice ≠ inDevice)
        then mkHandled true st (ForwardUnicast outDevice packet protocol srcMac dstMac)
        else mkHandled true st []
    | None =>
        mkHandled true st (ForwardBroadcast inDevice packet protocol srcMac dstMac st)
    end.

(** Number of copies sent out of device [d]. *)
Definition copies (d : NetDevice) (out : list Sent) : nat :=
  length (filter (λ s, via s = d) out).

End Protocol.

Arguments Sent : clear implicits.
Arguments L2SwitchProtocol : clear implicits.
Arguments Handled : clear implicits.

End L2Switch.

Module L2Trace.
Import L2Switch.

(** *** The receive callback over time *)

Section Trace.
Context {Packet : Type}.

(** One invocation of the receive callback: the ingress device and the
    frame handed to it. *)
Record Frame : Type := mkFrame {
  f_in : nat;
  f_packet : Packet;
  f_protocol : Z;
  f_from : Z;
  f_to : Z
}.

Definition receive (f : Frame) (st : L2SwitchProtocol) : Handled Packet :=
  ReceiveFromDevice (f_in f) (f_packet f) (f_protocol f) (f_from f) (f_to f) st.

(** The callback invoked on a sequence of frames, oldest first: the final
    protocol state and what each invocation sent. *)
Fixpoint receive_all (fs : list Frame) (st : L2SwitchProtocol)
    : L2SwitchProtocol * list (list (Sent Packet)) :=
  match fs with
  | [] => (st, [])
  | f :: fs =>
      let h := receive f st in
      let r := receive_all fs (after h) in
      (r.1, sent h :: r.2)
  end.

(** The ingress device of the most recent frame sent by [mac]. *)
Definition last_seen (mac : Z) (fs : list Frame) : option nat :=
  f_in <$> last (filter (λ f, f_from f = mac) fs).

End Trace.
Arguments Frame : clear implicits.
End L2Trace.

Module L2Network.
Import L2Switch L2Trace.

(** *** The network of [main] in [l2-switch-protocol.cc]

    [hosts.Get (i)] is [Host i] and [switches.Get (i)] is [Switch i]. *)
Inductive NodeRef : Type :=
  | Host (i : nat)
  | Switch (i : nat).

#[global] Instance NodeRef_eq_dec : EqDecision NodeRef.
Proof. solve_decision. Defined.

#[global] Instance NodeRef_countable : Countable NodeRef.
Proof.
  refine (inj_countable'
    (λ n, match n with Host i => inl i | Switch i => inr i end)
    (λ x, match x with inl i => Host i | inr i => Switch i end) _).
  by intros [].
Defined.

(** A [CsmaNetDevice]: the node it was added to and its address.  As a
    [Ptr<NetDevice>] it is identified by its position in creation order. *)
Record CsmaNetDevice : Type := mkDevice {
  d_node : NodeRef;
  d_address : Z
}.

#[global] Instance CsmaNetDevice_eq_dec : EqDecision CsmaNetDevice.
Proof. solve_decision. Defined.

(** The members of an [L2SwitchProtocol] object. *)
Record Aggregated : Type := mkAggregated {
  m_switchName : string;
  m_node : option NodeRef;
  m_initialized : bool;
  m_table : gmap Z nat
}.

#[global] Instance Aggregated_eq_dec : EqDecision Aggregated.
Proof. solve_decision. Defined.

(** The simulated network: the devices in creation order, the devices
    attached to each channel, the protocol object aggregated to a node, and
    for a device the node whose protocol object its promiscuous receive
    callback is bound to. *)
Record Lan : Type := mkLan {
  devices : list CsmaNetDevice;
  channels : list (list nat);
  objects : gmap NodeRef Aggregated;
  callbacks : gmap nat NodeRef
}.

#[global] Instance Lan_eq_dec : EqDecision Lan.
Proof. solve_decision. Defined.

Definition lan0 : Lan := mkLan [] [] ∅ ∅.

(** [csma.Install (link)]: one new channel; every node of the container,
    in order, gets a new device attached to it, whose address is the next
    one [Mac48Address::Allocate] hands out (00:00:00:00:00:01 first). *)
Definition csma_Install (link : list NodeRef) (s : Lan) : Lan :=
  let first := length (devices s) in
  mkLan (devices s ++ imap (λ k n, mkDevice n (Z.of_nat (first + k) + 1)) link)
        (channels s ++ [seq first (length link)])
        (objects s) (callbacks s).

(** [node->GetDevice (i)] for [i < node->GetNDevices ()], in index order. *)
Definition devices_on (s : Lan) (n : NodeRef) : list nat :=
  filter (λ dev, d_node <$> devices s !! dev = Some n)
         (seq 0 (length (devices s))).

(** [L2SwitchHelper::Install (node, name)]. *)
Definition Install (node : NodeRef) (name : string) (s : Lan) : Lan :=
  match objects s !! node with
  | Some _ => s
  | None =>
      mkLan (devices s) (channels s)
            (<[node := mkAggregated name (Some node) false ∅]> (objects s))
            (callbacks s)
  end.

(** [L2SwitchHelper::Install (nodes)]: the running [index] names the
    switches. *)
Definition Install_all (nodes : list NodeRef) (s : Lan) : Lan :=
  (foldl (λ acc n, (Install n ("Switch" +:+ to_string acc.2) acc.1, S acc.2))
         (s, 0%nat) nodes).1.

(** [protocol->Initialize ()] on the object aggregated to [n] (there is no
    result when [n] has no object, or the object no node). *)
Definition Initialize (n : NodeRef) (s : Lan) : option Lan :=
  p ← objects s !! n;
  if m_initialized p then Some s
  else
    node ← m_node p;
    Some (mkLan (devices s) (channels s)
            (<[n := mkAggregated (m_switchName p) (m_node p) true (m_table p)]>
               (objects s))
            (foldl (λ cb dev, <[dev := n]> cb) (callbacks s) (devices_on s node))).

(** Steps 2 to 4 of [main]. *)
Definition main : option Lan :=
  let s := csma_Install [Host 0; Switch 0] lan0 in
  let s := csma_Install [Switch 0; Switch 1] s in
  let s := csma_Install [Host 1; Switch 1] s in
  let s := csma_Install [Switch 1; Switch 2] s in
  let s := csma_Install [Host 2; Switch 2] s in
  let s := Install (Switch 0) "Switch0" s in
  let s := Install (Switch 1) "Switch1" s in
  let s := Install (Switch 2) "Switch2" s in
  for_ 0 3 (λ i, Initialize (Switch i)) s.

(** The devices of Host A, Host B and Host C. *)
Definition hostDevices : list nat := [0; 4; 8]%nat.

Section Frames.

Context {Packet : Type}.

(** A frame sent from device [via] reaches every other device of the
    channel. *)
Definition transmit (s : Lan) (x : Sent Packet) : list (Frame Packet) :=
  c ← channels s;
  if decide (via x ∈ c)
  then (λ dev, mkFrame dev (s_packet x) (s_protocol x) (s_source x)
                       (s_destination x))
       <$> filter (λ dev, dev ≠ via x) c
  else [].

(** A frame arrives at a device.  When the promiscuous callback is bound,
    the protocol object runs [ReceiveFromDevice] on the devices its node
    has at that moment and on its table. *)
Definition arrive (f : Frame Packet) (s : Lan)
    : option (Lan * list (Sent Packet)) :=
  match callbacks s !! f_in f with
  | None => Some (s, [])
  | Some n =>
      p ← objects s !! n;
      node ← m_node p;
      let h := receive f (mkProtocol (devices_on s node) (m_table p)) in
      Some (mkLan (devices s) (channels s)
              (<[n := mkAggregated (m_switchName p) (m_node p) (m_initialized p)
                                   (m_macTable (after h))]> (objects s))
              (callbacks s),
            sent h)
  end.

(** The frames on the wire are handled first come, first served; the
    result is the network afterwards and every arrival, in order. *)
Fixpoint run (fuel : nat) (queue : list (Frame Packet)) (s : Lan)
    : option (Lan * list (Frame Packet)) :=
  match fuel with
  | O => match queue with [] => Some (s, []) | _ => None end
  | S fuel =>
      match queue with
      | [] => Some (s, [])
      | f :: queue =>
          r ← arrive f s;
          r' ← run fuel (queue ++ (r.2 ≫= transmit r.1)) r.1;
          Some (r'.1, f :: r'.2)
      end
  end.

(** The device's own layer hands a frame up when it is addressed to the
    device or to everyone. *)
Definition accepts (s : Lan) (f : Frame Packet) : bool :=
  bool_decide (d_address <$> devices s !! f_in f = Some (f_to f))
  || IsBroadcast (f_to f).

(** Host [i] sends a frame to [to] from its device. *)
Definition send (i : nat) (packet : Packet) (protocol : Z) (to : Z) (s : Lan)
    : option (Lan * list (Frame Packet)) :=
  dev ← hostDevices !! i;
  d ← devices s !! dev;
  run 16 (transmit s (mkSent dev packet (d_address d) to protocol)) s.

End Frames.

(** A message: the sending host and the destination address. *)
Definition Message : Type := nat * Z.

Definition send_all (ms : list Message) (s : Lan) : option Lan :=
  foldl (λ acc m, s ← acc; fst <$> send m.1 tt 2048 m.2 s) (Some s) ms.

(** The hosts whose device a frame reached, in order of arrival. *)
Definition hosts_reached (s : Lan) (log : list (Frame unit)) : list nat :=
  omap (λ f, match d_node <$> devices s !! f_in f with
             | Some (Host i) => Some i
             | _ => None
             end) log.

(** The hosts that were handed the frame. *)
Definition hosts_served (s : Lan) (log : list (Frame unit)) : list nat :=
  hosts_reached s (filter (λ f, accepts s f = true) log).

(** The address of host [i]'s device. *)
Definition host_address (s : Lan) (i : nat) : option Z :=
  dev ← hostDevices !! i; d_address <$> devices s !! dev.

(** *** The network [main] builds, and what can be sent over it *)

Definition lan : Lan := Eval vm_compute in default lan0 main.

(** Every host may address every other host, or everyone. *)
Definition messages : list Message :=
  i ← seq 0 3;
  to ← [1; 5; 9; broadcast];
  if decide (host_address lan i = Some to) then [] else [(i, to)].

(** The networks that one more message can lead to. *)
Definition successors (ss : list Lan) : list Lan :=
  remove_dups
    (ss ++ (s ← ss; m ← messages;
            from_option (λ r, [r.1]) [] (send m.1 tt 2048 m.2 s))).

(** All states of the network that sequences of messages lead to. *)
Definition reachable : list Lan :=
  Eval vm_compute in Nat.iter 6 successors [lan].

(** Frames for host [t] reach no other host, whoever sends them. *)
Definition quiet (s : Lan) (t : nat) : Prop :=
  ∃ to, host_address s t = Some to ∧
    Forall (λ i, i ≠ t →
              ∃ r, send i tt 2048 to s = Some r ∧ hosts_reached s r.2 = [t])
           (seq 0 3).

#[global] Instance quiet_dec s t : Decision (quiet s t).
Proof. unfold quiet. apply _. Defined.
#[global] Typeclasses Opaque quiet.

End L2Network.

(** * Properties of the fat-tree program *)

Module FatTreeFacts.
Import FatTree.

(** Decidable closed statements are settled by evaluation. *)
Ltac by_evaluation := apply (bool_decide_unpack _); vm_compute; exact I.

Lemma below_in_seq (n i : nat) : (i < n)%nat → i ∈ seq 0 n.
Proof. intros. apply elem_of_seq. lia. Qed.

(** The program with [K = 4] runs to completion and yields [fabric]. *)
Lemma main_fabric : main 4 = Some fabric.
Proof. vm_compute. reflexivity. Qed.

Lemma fabric_links_length : length (links fabric) = 48%nat.
Proof. reflexivity. Qed.

(** The subnets of the plan are the three formulas of section 4, in
    creation order. *)
Lemma fabric_plan_shape :
  link_subnet <$> links fabric =
  (pod ← seq 0 4;
     (server_subnet pod <$> seq 0 4) ++
     (lower ← seq 4 2; upper ← seq 6 2; [lower_upper_subnet pod lower upper]))
  ++ (core_subnet <$> seq 0 16).
Proof. vm_compute. reflexivity. Qed.

(** *** Address plan *)

Lemma fabric_nets_distinct :
  Forall (λ i, Forall (λ j, i ≠ j →
      ∃ n1, link_net fabric i = Some n1 ∧
      ∃ n2, link_net fabric j = Some n2 ∧
            Z.land n1 4294967292 ≠ Z.land n2 4294967292)
    (seq 0 48)) (seq 0 48).
Proof. by_evaluation. Qed.

(** C3. Any two distinct links of the k = 4 plan have well-formed /30
    subnets with no address in common. *)
Theorem address_plan_disjoint (i j : nat) (l1 l2 : Link) :
  links fabric !! i = Some l1 →
  links fabric !! j = Some l2 →
  i ≠ j →
  ∃ n1 n2, Ipv4Address (link_subnet l1) = Some n1 ∧
           Ipv4Address (link_subnet l2) = Some n2 ∧
           ∀ a, ¬ (in_subnet30 a n1 ∧ in_subnet30 a n2).
Proof.
  intros Hi Hj Hne.
  assert (i ∈ seq 0 48) as Hi'.
  { apply below_in_seq. rewrite <- fabric_links_length. by eapply lookup_lt_Some. }
  assert (j ∈ seq 0 48) as Hj'.
  { apply below_in_seq. rewrite <- fabric_links_length. by eapply lookup_lt_Some. }
  pose proof fabric_nets_distinct as Hall.
  rewrite Forall_forall in Hall. specialize (Hall i Hi').
  rewrite Forall_forall in Hall.
  destruct (Hall j Hj' Hne) as (n1 & H1 & n2 & H2 & Hdiff).
  unfold link_net in H1, H2. rewrite Hi in H1. rewrite Hj in H2. simpl in H1, H2.
  exists n1, n2. split_and!; [done..|].
  intros a [Ha1 Ha2]. unfold in_subnet30, IsMatch in Ha1, Ha2.
  apply bool_decide_eq_true in Ha1, Ha2. congruence.
Qed.

Lemma address_plan_disjoint_witness :
  ∃ n1 n2, Ipv4Address "10.0.0.0" = Some n1 ∧
           Ipv4Address "10.10.0.0" = Some n2 ∧
           ∀ a, ¬ (in_subnet30 a n1 ∧ in_subnet30 a n2).
Proof.
  apply (address_plan_disjoint 0 32
           (mkLink (PodNode 0 0) (PodNode 0 4) "10.0.0.0" "pod0_server0")
           (mkLink (PodNode 0 6) (CoreNode 0) "10.10.0.0" "pod0_aggr0_core0")).
  - reflexivity.
  - reflexivity.
  - lia.
Defined.

(** *** Core switches *)

Lemma core_tables_all :
  Forall (λ c,
    length (table fabric (CoreNode c)) = 4%nat ∧
    Forall (λ pod,
      ∃ r, table fabric (CoreNode c) !! pod = Some r ∧
        (prefix_of r = pod_prefix pod ∧
         entries_for (table fabric (CoreNode c)) (pod_prefix pod) = [r] ∧
         GetAddress ("pod" +:+ to_string pod +:+ "_aggr" +:+ to_string (c / 2)%nat
                     +:+ "_core" +:+ to_string c) 0 fabric = Some (gateway r) ∧
         owns fabric (PodNode pod (6 + c / 2)) (gateway r) = true ∧
         peer_on fabric (CoreNode c) (interface r) = Some (PodNode pod (6 + c / 2)) ∧
         length (filter (λ i, peer_in_pod pod i = true)
                        (ifaces fabric (CoreNode c))) = 1%nat))
      (seq 0 4))
    (seq 0 4).
Proof. by_evaluation. Qed.

(** C5. For k = 4 the table synthesized for core switch [c] has exactly
    four entries; the one at position [pod] is the only entry for
    10.<pod>.0.0/16, its single next hop is the aggregation-side address of
    the link between the core switch and aggregation switch [c / 2] of that
    pod, it leaves through the interface to that switch, and that switch is
    the core switch's only neighbour in the pod. *)
Theorem core_table_one_route_per_pod (c pod : nat) :
  (c < 4)%nat →
  (pod < 4)%nat →
  length (table fabric (CoreNode c)) = 4%nat ∧
  ∃ r, table fabric (CoreNode c) !! pod = Some r ∧
    (prefix_of r = pod_prefix pod ∧
     entries_for (table fabric (CoreNode c)) (pod_prefix pod) = [r] ∧
     GetAddress ("pod" +:+ to_string pod +:+ "_aggr" +:+ to_string (c / 2)%nat
                 +:+ "_core" +:+ to_string c) 0 fabric = Some (gateway r) ∧
     owns fabric (PodNode pod (6 + c / 2)) (gateway r) = true ∧
     peer_on fabric (CoreNode c) (interface r) = Some (PodNode pod (6 + c / 2)) ∧
     length (filter (λ i, peer_in_pod pod i = true)
                    (ifaces fabric (CoreNode c))) = 1%nat).
Proof.
  intros Hc Hpod.
  pose proof core_tables_all as Hall.
  rewrite Forall_forall in Hall.
  destruct (Hall c (below_in_seq _ _ Hc)) as [Hlen Hpods].
  split; [done|].
  rewrite Forall_forall in Hpods.
  exact (Hpods pod (below_in_seq _ _ Hpod)).
Qed.

Lemma core_table_one_route_per_pod_witness :
  length (table fabric (CoreNode 2)) = 4%nat ∧
  ∃ r, table fabric (CoreNode 2) !! 3%nat = Some r ∧
    (prefix_of r = pod_prefix 3 ∧
     entries_for (table fabric (CoreNode 2)) (pod_prefix 3) = [r] ∧
     GetAddress "pod3_aggr1_core2" 0 fabric = Some (gateway r) ∧
     owns fabric (PodNode 3 7) (gateway r) = true ∧
     peer_on fabric (CoreNode 2) (interface r) = Some (PodNode 3 7) ∧
     length (filter (λ i, peer_in_pod 3 i = true)
                    (ifaces fabric (CoreNode 2))) = 1%nat).
Proof. apply (core_table_one_route_per_pod 2 3); lia. Defined.

(** *** Access switches *)

(** C6. In the table of Pod 0 AccessSwitch 1 the longest-prefix match for
    10.0.0.1, the address of the first server of Pod 0 AccessSwitch 0, is the
    single installed entry 10.0.0.0/24; its next hop belongs to aggregation
    switch 0 of the pod, which both access switches are attached to; no /30
    entry of the table matches the address. *)
Theorem access1_lookup_uses_aggregate :
  ∃ d r,
    server_address fabric 0 0 = Some d ∧ d = quad "10.0.0.1" ∧
    lpm_candidates (routing_table fabric (PodNode 0 5)) d = [r] ∧
    lpm_candidates (table fabric (PodNode 0 5)) d = [r] ∧
    prefix_of r = access_prefix 0 0 ∧
    owns fabric (PodNode 0 6) (gateway r) = true ∧
    peer_on fabric (PodNode 0 5) (interface r) = Some (PodNode 0 6) ∧
    Some (PodNode 0 6) ∈ if_peer <$> ifaces fabric (PodNode 0 4) ∧
    Forall (λ e, destMask e = quad mask30 → IsMatch (destMask e) d (dest e) = false)
           (routing_table fabric (PodNode 0 5)).
Proof.
  eexists _, _. split; [vm_compute; reflexivity|].
  split; [vm_compute; reflexivity|].
  split; [vm_compute; reflexivity|].
  split; [vm_compute; reflexivity|].
  split; [vm_compute; reflexivity|].
  split; [vm_compute; reflexivity|].
  split; [vm_compute; reflexivity|].
  split; by_evaluation.
Qed.


Lemma access_tables_all :
  Forall (λ pod, Forall (λ accessId,
    ∃ nextHop, GetAddress (lower_upper_key pod accessId 0) 1 fabric = Some nextHop ∧
    ∃ own, GetAddress (lower_upper_key pod accessId 0) 0 fabric = Some own ∧
      (owns fabric (PodNode pod 6) nextHop = true ∧
       peer_on fabric (PodNode pod (4 + accessId))
               (GetInterfaceForAddress (PodNode pod (4 + accessId)) own fabric)
         = Some (PodNode pod 6) ∧
       prefix_of <$> table fabric (PodNode pod (4 + accessId))
         = access_prefix pod (1 - accessId)
           :: (pod_prefix <$> filter (λ otherPod, otherPod ≠ pod) (seq 0 4)) ∧
       Forall (λ r, gateway r = nextHop ∧
                    interface r = GetInterfaceForAddress
                                    (PodNode pod (4 + accessId)) own fabric)
              (table fabric (PodNode pod (4 + accessId))) ∧
       Some (PodNode pod 7) ∈ if_peer <$> ifaces fabric (PodNode pod (4 + accessId)) ∧
       Forall (λ r, peer_on fabric (PodNode pod (4 + accessId)) (interface r)
                    ≠ Some (PodNode pod 7))
              (table fabric (PodNode pod (4 + accessId))) ∧
       Forall (λ dst,
           ∃ d, server_address fabric dst.1 dst.2 = Some d ∧
                Forall (λ pf, PodNode pod 7 ∉ pf.1)
                       (forward 16 fabric (PodNode pod (4 + accessId)) d))
         servers))
    (seq 0 2)) (seq 0 4).
Proof. by_evaluation. Qed.

(** C9. The table of access switch [accessId] of pod [pod] consists of the
    /24 aggregate of the sibling access switch followed by the /16
    aggregates of the three other pods; every one of these entries has the
    address of aggregation switch 0 (upper 0) as next hop and leaves through
    the interface of the link to that switch.  The access switch also has a
    link to aggregation switch 1, and no entry uses it: a packet for any
    server address that is forwarded by the access switch never passes
    through aggregation switch 1 of the pod. *)
Theorem access_routes_use_first_uplink_only (pod accessId : nat) :
  (pod < 4)%nat →
  (accessId < 2)%nat →
  ∃ nextHop, GetAddress (lower_upper_key pod accessId 0) 1 fabric = Some nextHop ∧
  ∃ own, GetAddress (lower_upper_key pod accessId 0) 0 fabric = Some own ∧
    (owns fabric (PodNode pod 6) nextHop = true ∧
     peer_on fabric (PodNode pod (4 + accessId))
             (GetInterfaceForAddress (PodNode pod (4 + accessId)) own fabric)
       = Some (PodNode pod 6) ∧
     prefix_of <$> table fabric (PodNode pod (4 + accessId))
       = access_prefix pod (1 - accessId)
         :: (pod_prefix <$> filter (λ otherPod, otherPod ≠ pod) (seq 0 4)) ∧
     Forall (λ r, gateway r = nextHop ∧
                  interface r = GetInterfaceForAddress
                                  (PodNode pod (4 + accessId)) own fabric)
            (table fabric (PodNode pod (4 + accessId))) ∧
     Some (PodNode pod 7) ∈ if_peer <$> ifaces fabric (PodNode pod (4 + accessId)) ∧
     Forall (λ r, peer_on fabric (PodNode pod (4 + accessId)) (interface r)
                  ≠ Some (PodNode pod 7))
            (table fabric (PodNode pod (4 + accessId))) ∧
     Forall (λ dst,
         ∃ d, server_address fabric dst.1 dst.2 = Some d ∧
              Forall (λ pf, PodNode pod 7 ∉ pf.1)
                     (forward 16 fabric (PodNode pod (4 + accessId)) d))
       servers).
Proof.
  intros Hpod Hacc.
  pose proof access_tables_all as Hall.
  rewrite Forall_forall in Hall.
  specialize (Hall pod (below_in_seq _ _ Hpod)).
  rewrite Forall_forall in Hall.
  exact (Hall accessId (below_in_seq _ _ Hacc)).
Qed.

Lemma access_routes_use_first_uplink_only_witness :
  ∃ nextHop, GetAddress "pod2_lower1_upper0" 1 fabric = Some nextHop ∧
  ∃ own, GetAddress "pod2_lower1_upper0" 0 fabric = Some own ∧
    (owns fabric (PodNode 2 6) nextHop = true ∧
     peer_on fabric (PodNode 2 5) (GetInterfaceForAddress (PodNode 2 5) own fabric)
       = Some (PodNode 2 6) ∧
     prefix_of <$> table fabric (PodNode 2 5)
       = access_prefix 2 0 :: [pod_prefix 0; pod_prefix 1; pod_prefix 3] ∧
     Forall (λ r, gateway r = nextHop ∧
                  interface r = GetInterfaceForAddress (PodNode 2 5) own fabric)
            (table fabric (PodNode 2 5)) ∧
     Some (PodNode 2 7) ∈ if_peer <$> ifaces fabric (PodNode 2 5) ∧
     Forall (λ r, peer_on fabric (PodNode 2 5) (interface r) ≠ Some (PodNode 2 7))
            (table fabric (PodNode 2 5)) ∧
     Forall (λ dst,
         ∃ d, server_address fabric dst.1 dst.2 = Some d ∧
              Forall (λ pf, PodNode 2 7 ∉ pf.1)
                     (forward 16 fabric (PodNode 2 5) d))
       servers).
Proof. apply (access_routes_use_first_uplink_only 2 1); lia. Defined.

(** *** Consistency of the forwarding model with the installed entries *)

(** Every installed entry names, as next hop, an address of the node at the
    other end of its egress interface: following the interface and
    following the next hop are the same thing. *)
Lemma next_hops_match_interfaces :
  Forall (λ n, Forall (λ r,
      ∃ p, peer_on fabric n (interface r) = Some p ∧ owns fabric p (gateway r) = true)
    (table fabric n)) fabric_nodes.
Proof. by_evaluation. Qed.

(** The program installs no route from an access switch to its own servers:
    on the installed entries alone, access switch 0 of pod 0 has no match for
    10.0.0.5; the last hop relies on the route to the attached /30. *)
Lemma last_hop_uses_attached_subnet :
  lpm_candidates (table fabric (PodNode 0 4)) (quad "10.0.0.5") = [] ∧
  lpm_candidates (routing_table fabric (PodNode 0 4)) (quad "10.0.0.5")
    = [mkRoute (quad "10.0.0.4") (quad mask30) 0 2] ∧
  peer_on fabric (PodNode 0 4) 2 = Some (PodNode 0 1).
Proof. repeat split; vm_compute; reflexivity. Qed.

(** *** End-to-end forwarding *)

Lemma in_servers (pod server : nat) :
  (pod < 4)%nat → (server < 4)%nat → (pod, server) ∈ servers.
Proof.
  intros Hp Hs. unfold servers.
  apply list_elem_of_bind. exists pod. split; [|by apply below_in_seq].
  apply list_elem_of_bind. exists server. split; [|by apply below_in_seq].
  by apply list_elem_of_singleton.
Qed.

Lemma fabric_reaches_all :
  Forall (λ src, Forall (λ dst,
      src ≠ dst → reaches fabric (hop_bound src dst) src dst) servers) servers.
Proof. by_evaluation. Qed.

(** C1, as the fabric behaves.  For every ordered pair of distinct servers
    of the k = 4 fabric, a packet for the destination server's address is
    delivered to that server along every path longest-prefix matching can
    take; the path repeats no node and passes through at most 1 switch when
    both servers share an access switch (that access switch), 3 when they
    are in one pod under different access switches, and 5 when they are in
    different pods. *)
Theorem servers_reach_each_other (p1 s1 p2 s2 : nat) :
  (p1 < 4)%nat → (s1 < 4)%nat → (p2 < 4)%nat → (s2 < 4)%nat →
  (p1, s1) ≠ (p2, s2) →
  reaches fabric (hop_bound (p1, s1) (p2, s2)) (p1, s1) (p2, s2).
Proof.
  intros Hp1 Hs1 Hp2 Hs2 Hne.
  pose proof fabric_reaches_all as Hall.
  rewrite Forall_forall in Hall.
  specialize (Hall _ (in_servers _ _ Hp1 Hs1)).
  rewrite Forall_forall in Hall.
  exact (Hall _ (in_servers _ _ Hp2 Hs2) Hne).
Qed.

Lemma servers_reach_each_other_witness :
  reaches fabric 5 (1, 0)%nat (0, 0)%nat.
Proof.
  apply (servers_reach_each_other 1 0 0 0); [lia..|].
  intros [=].
Defined.

(** C1 as stated fails: Pod 0 server 0 and server 1 share access switch 0,
    and the only path between them goes through that switch, which is one
    intermediate switch and not zero. *)
Lemma same_access_switch_is_one_hop :
  forward 16 fabric (PodNode 0 0) (quad "10.0.0.5")
    = [([PodNode 0 0; PodNode 0 4; PodNode 0 1], Delivered)] ∧
  server_address fabric 0 1 = Some (quad "10.0.0.5") ∧
  ¬ reaches fabric (hop_bound_stated (0, 0)%nat (0, 1)%nat) (0, 0)%nat (0, 1)%nat.
Proof.
  split; [vm_compute; reflexivity|].
  split; [vm_compute; reflexivity|].
  by_evaluation.
Qed.


(** *** Aggregation switches *)

Lemma two_element_list {A} (l : list A) (a b : A) :
  l !! 0%nat = Some a → l !! 1%nat = Some b → length l = 2%nat → l = [a; b].
Proof.
  destruct l as [|x [|y [|z l]]]; simpl; intros; simplify_eq; done.
Qed.

Lemma other_tables_conflict_free :
  Forall (λ n, is_aggregation n = false → conflict_free (table fabric n))
         fabric_nodes.
Proof. by_evaluation. Qed.

Lemma aggregation_tables_conflict :
  Forall (λ n, is_aggregation n = true →
    Forall (λ otherPod, in_pod otherPod n = false →
      ∃ r1, entries_for (table fabric n) (pod_prefix otherPod) !! 0%nat = Some r1 ∧
      ∃ r2, entries_for (table fabric n) (pod_prefix otherPod) !! 1%nat = Some r2 ∧
            conflicting r1 r2)
      (seq 0 4))
    fabric_nodes.
Proof. by_evaluation. Qed.

Lemma entries_for_spec t p r :
  r ∈ entries_for t p ↔ r ∈ t ∧ prefix_of r = p.
Proof. unfold entries_for. rewrite list_elem_of_filter. tauto. Qed.

(** C2, as the program behaves.  The run for k = 4 completes, and nothing is
    rejected: the tables of servers, access switches and core switches hold
    no two entries for one prefix with different next hops, while the table
    of every aggregation switch holds, for every other pod, two installed
    entries for that pod's /16 whose next hops differ. *)
Theorem route_conflicts_are_installed (n : Node) :
  n ∈ fabric_nodes →
  main 4 = Some fabric ∧
  (is_aggregation n = false → conflict_free (table fabric n)) ∧
  (is_aggregation n = true →
   ∀ otherPod, (otherPod < 4)%nat → in_pod otherPod n = false →
     ∃ r1 r2, r1 ∈ table fabric n ∧ r2 ∈ table fabric n ∧
              prefix_of r1 = pod_prefix otherPod ∧ conflicting r1 r2).
Proof.
  intros Hn. split; [exact main_fabric|]. split.
  - pose proof other_tables_conflict_free as Hall.
    rewrite Forall_forall in Hall. exact (Hall n Hn).
  - intros Hagg otherPod Hlt Hother.
    pose proof aggregation_tables_conflict as Hall.
    rewrite Forall_forall in Hall. specialize (Hall n Hn Hagg).
    rewrite Forall_forall in Hall.
    destruct (Hall otherPod (below_in_seq _ _ Hlt) Hother)
      as (r1 & H1 & r2 & H2 & Hc).
    apply list_elem_of_lookup_2, entries_for_spec in H1 as [H1 Hp1].
    apply list_elem_of_lookup_2, entries_for_spec in H2 as [H2 Hp2].
    by exists r1, r2.
Qed.

Lemma route_conflicts_are_installed_witness :
  main 4 = Some fabric ∧
  (is_aggregation (PodNode 0 6) = false → conflict_free (table fabric (PodNode 0 6))) ∧
  (is_aggregation (PodNode 0 6) = true →
   ∀ otherPod, (otherPod < 4)%nat → in_pod otherPod (PodNode 0 6) = false →
     ∃ r1 r2, r1 ∈ table fabric (PodNode 0 6) ∧ r2 ∈ table fabric (PodNode 0 6) ∧
              prefix_of r1 = pod_prefix otherPod ∧ conflicting r1 r2).
Proof.
  apply (route_conflicts_are_installed (PodNode 0 6)).
  apply (bool_decide_unpack _). vm_compute. exact I.
Defined.

(** C2 as stated fails: the run completes, and the table of aggregation
    switch 0 of pod 0 holds two entries for 10.1.0.0/16, one through core
    switch 0 (10.10.0.2) and one through core switch 1 (10.10.0.18). *)
Lemma conflict_is_not_rejected :
  main 4 = Some fabric ∧
  mkRoute (quad "10.1.0.0") (quad "255.255.0.0") (quad "10.10.0.2") 3
    ∈ table fabric (PodNode 0 6) ∧
  mkRoute (quad "10.1.0.0") (quad "255.255.0.0") (quad "10.10.0.18") 4
    ∈ table fabric (PodNode 0 6) ∧
  ¬ conflict_free (table fabric (PodNode 0 6)).
Proof.
  split; [exact main_fabric|].
  split; [by_evaluation|]. split; by_evaluation.
Qed.

Lemma aggregation_uplinks_all :
  Forall (λ pod, Forall (λ aggrId, Forall (λ otherPod, otherPod ≠ pod →
    ∃ r0, entries_for (table fabric (PodNode pod (6 + aggrId)))
                      (pod_prefix otherPod) !! 0%nat = Some r0 ∧
    ∃ r1, entries_for (table fabric (PodNode pod (6 + aggrId)))
                      (pod_prefix otherPod) !! 1%nat = Some r1 ∧
      (length (entries_for (table fabric (PodNode pod (6 + aggrId)))
                           (pod_prefix otherPod)) = 2%nat ∧
       GetAddress (aggr_core_key pod aggrId (aggrId * 2)) 1 fabric
         = Some (gateway r0) ∧
       GetAddress (aggr_core_key pod aggrId (aggrId * 2 + 1)) 1 fabric
         = Some (gateway r1) ∧
       peer_on fabric (PodNode pod (6 + aggrId)) (interface r0)
         = Some (CoreNode (aggrId * 2)) ∧
       peer_on fabric (PodNode pod (6 + aggrId)) (interface r1)
         = Some (CoreNode (aggrId * 2 + 1)) ∧
       gateway r0 ≠ gateway r1 ∧ interface r0 ≠ interface r1 ∧
       core_neighbours fabric (PodNode pod (6 + aggrId))
         = [CoreNode (aggrId * 2); CoreNode (aggrId * 2 + 1)] ∧
       Forall (λ server,
           ∃ d, server_address fabric otherPod server = Some d ∧
                lpm_candidates (routing_table fabric (PodNode pod (6 + aggrId))) d
                  = entries_for (table fabric (PodNode pod (6 + aggrId)))
                                (pod_prefix otherPod))
         (seq 0 4)))
    (seq 0 4)) (seq 0 2)) (seq 0 4).
Proof. by_evaluation. Qed.

(** C4, as the program behaves.  For every aggregation switch and every
    other pod, the table holds exactly two separate entries for
    10.<otherPod>.0.0/16, each with a single next hop and interface: the
    first through core switch [aggrId * 2], the second through core switch
    [aggrId * 2 + 1], which are all the core switches the aggregation switch
    is attached to.  Their next hops and interfaces differ, and for every
    server address of the other pod both entries tie as longest-prefix
    matches. *)
Theorem aggregation_uplinks_are_separate_entries (pod aggrId otherPod : nat) :
  (pod < 4)%nat → (aggrId < 2)%nat → (otherPod < 4)%nat → otherPod ≠ pod →
  ∃ r0 r1,
    entries_for (table fabric (PodNode pod (6 + aggrId))) (pod_prefix otherPod)
      = [r0; r1] ∧
    GetAddress (aggr_core_key pod aggrId (aggrId * 2)) 1 fabric = Some (gateway r0) ∧
    GetAddress (aggr_core_key pod aggrId (aggrId * 2 + 1)) 1 fabric = Some (gateway r1) ∧
    peer_on fabric (PodNode pod (6 + aggrId)) (interface r0)
      = Some (CoreNode (aggrId * 2)) ∧
    peer_on fabric (PodNode pod (6 + aggrId)) (interface r1)
      = Some (CoreNode (aggrId * 2 + 1)) ∧
    gateway r0 ≠ gateway r1 ∧ interface r0 ≠ interface r1 ∧
    core_neighbours fabric (PodNode pod (6 + aggrId))
      = [CoreNode (aggrId * 2); CoreNode (aggrId * 2 + 1)] ∧
    ∀ server, (server < 4)%nat →
      ∃ d, server_address fabric otherPod server = Some d ∧
           lpm_candidates (routing_table fabric (PodNode pod (6 + aggrId))) d
             = [r0; r1].
Proof.
  intros Hpod Haggr Hother Hne.
  pose proof aggregation_uplinks_all as Hall.
  rewrite Forall_forall in Hall. specialize (Hall pod (below_in_seq _ _ Hpod)).
  rewrite Forall_forall in Hall. specialize (Hall aggrId (below_in_seq _ _ Haggr)).
  rewrite Forall_forall in Hall.
  destruct (Hall otherPod (below_in_seq _ _ Hother) Hne)
    as (r0 & H0 & r1 & H1 & Hlen & Hg0 & Hg1 & Hp0 & Hp1 & Hgw & Hif & Hcore & Hlpm).
  pose proof (two_element_list _ _ _ H0 H1 Hlen) as Heq.
  exists r0, r1. split_and!; try done.
  intros server Hs. rewrite Forall_forall in Hlpm.
  destruct (Hlpm server (below_in_seq _ _ Hs)) as (d & Hd & Hc).
  exists d. split; [done|]. by rewrite Hc.
Qed.

Lemma aggregation_uplinks_are_separate_entries_witness :
  ∃ r0 r1,
    entries_for (table fabric (PodNode 1 7)) (pod_prefix 0) = [r0; r1] ∧
    GetAddress "pod1_aggr1_core2" 1 fabric = Some (gateway r0) ∧
    GetAddress "pod1_aggr1_core3" 1 fabric = Some (gateway r1) ∧
    peer_on fabric (PodNode 1 7) (interface r0) = Some (CoreNode 2) ∧
    peer_on fabric (PodNode 1 7) (interface r1) = Some (CoreNode 3) ∧
    gateway r0 ≠ gateway r1 ∧ interface r0 ≠ interface r1 ∧
    core_neighbours fabric (PodNode 1 7) = [CoreNode 2; CoreNode 3] ∧
    ∀ server, (server < 4)%nat →
      ∃ d, server_address fabric 0 server = Some d ∧
           lpm_candidates (routing_table fabric (PodNode 1 7)) d = [r0; r1].
Proof. apply (aggregation_uplinks_are_separate_entries 1 1 0); lia. Defined.

(** C4 as stated fails: toward 10.1.0.0/16, aggregation switch 0 of pod 0
    has two single-next-hop entries, not one entry. *)
Lemma uplinks_are_not_one_entry :
  entries_for (table fabric (PodNode 0 6)) (pod_prefix 1)
    = [mkRoute (quad "10.1.0.0") (quad "255.255.0.0") (quad "10.10.0.2") 3;
       mkRoute (quad "10.1.0.0") (quad "255.255.0.0") (quad "10.10.0.18") 4] ∧
  length (entries_for (table fabric (PodNode 0 6)) (pod_prefix 1)) ≠ 1%nat.
Proof. split; [vm_compute; reflexivity|by_evaluation]. Qed.


(** *** The address plan beyond k = 4 *)



(** *** Independence of the state the address helper starts in *)

Lemma sim_fields w1 w2 :
  sim w1 w2 ↔
  interfaces w1 = interfaces w2 ∧ links w1 = links w2 ∧
  ipv4 w1 = ipv4 w2 ∧ staticRouting w1 = staticRouting w2.
Proof. unfold sim, outputs. split; [intros [= -> -> -> ->]|intros (-> & -> & -> & ->)]; done. Qed.

Lemma sim_refl w : sim w w.
Proof. reflexivity. Qed.

Lemma respects_bind {S : Type} (R : relation S) (f : S → option S) o1 o2 :
  respects R f → option_Forall2 R o1 o2 → option_Forall2 R (o1 ≫= f) (o2 ≫= f).
Proof. intros Hf [s1 s2 Hs|]; simpl; [by apply Hf|constructor]. Qed.

Lemma respects_for {S : Type} (R : relation S) lo hi (body : nat → S → option S) :
  (∀ i, respects R (body i)) → respects R (for_ lo hi body).
Proof.
  intros Hbody s1 s2 Hs. unfold for_.
  assert (option_Forall2 R (Some s1) (Some s2)) as Ho by (by constructor).
  revert Ho. generalize (Some s1) (Some s2).
  induction (seq lo (hi - lo)) as [|i l IH]; intros o1 o2 Ho; simpl; [done|].
  apply IH. by apply respects_bind.
Qed.

Lemma respects_Some {S : Type} (R : relation S) (f : S → S) :
  (∀ s1 s2, R s1 s2 → R (f s1) (f s2)) → respects R (λ s, Some (f s)).
Proof. intros Hf s1 s2 Hs. constructor. by apply Hf. Qed.

Lemma stack_Install_sim n w1 w2 :
  sim w1 w2 → sim (stack_Install n w1) (stack_Install n w2).
Proof.
  destruct w1, w2. rewrite !sim_fields. simpl.
  intros (-> & -> & -> & ->). by split_and!.
Qed.

(** A link overwrites the helper before reading it. *)
Lemma connect_sim a b subnet key w1 w2 :
  sim w1 w2 → connect a b subnet key w1 = connect a b subnet key w2.
Proof.
  destruct w1, w2. rewrite sim_fields. simpl.
  intros (-> & -> & -> & ->).
  unfold connect, SetBase. simpl.
  by destruct (Ipv4Address subnet), (Ipv4Mask mask30).
Qed.

Lemma GetAddress_sim key i w1 w2 :
  sim w1 w2 → GetAddress key i w1 = GetAddress key i w2.
Proof. rewrite sim_fields. unfold GetAddress. by intros (-> & _). Qed.

Lemma GetInterfaceForAddress_sim n a w1 w2 :
  sim w1 w2 → GetInterfaceForAddress n a w1 = GetInterfaceForAddress n a w2.
Proof. rewrite sim_fields. unfold GetInterfaceForAddress. by intros (_ & _ & -> & _). Qed.

Lemma add_route_sim n r w1 w2 :
  sim w1 w2 → sim (add_route n r w1) (add_route n r w2).
Proof.
  destruct w1, w2. rewrite !sim_fields. simpl.
  intros (-> & -> & -> & ->). by split_and!.
Qed.

Lemma AddNetworkRouteTo_respects n network mask nextHop interface :
  respects sim (AddNetworkRouteTo n network mask nextHop interface).
Proof.
  intros w1 w2 Hs. unfold AddNetworkRouteTo.
  destruct (Ipv4Address network); simpl; [|constructor].
  destruct (Ipv4Mask mask); simpl; constructor. by apply add_route_sim.
Qed.

Lemma SetDefaultRoute_respects n nextHop interface :
  respects sim (SetDefaultRoute n nextHop interface).
Proof. intros w1 w2 Hs. constructor. by apply add_route_sim. Qed.

Lemma create_nodes_respects K : respects sim (create_nodes K).
Proof.
  intros w1 w2 Hs. unfold create_nodes.
  apply respects_bind.
  - apply respects_for. intros c. apply respects_Some. apply stack_Install_sim.
  - apply respects_for; [|done]. intros i. apply respects_for. intros idx.
    apply respects_Some. apply stack_Install_sim.
Qed.

Lemma connect_respects a b subnet key : respects sim (connect a b subnet key).
Proof.
  intros w1 w2 Hs. rewrite (connect_sim _ _ _ _ _ _ Hs).
  destruct (connect a b subnet key w2); constructor. apply sim_refl.
Qed.

Lemma build_pods_respects K : respects sim (build_pods K).
Proof.
  unfold build_pods. apply respects_for. intros pod w1 w2 Hs.
  apply respects_bind.
  - apply respects_for. intros lower. apply respects_for. intros upper.
    apply connect_respects.
  - apply respects_for; [|done]. intros server. apply connect_respects.
Qed.

Lemma build_core_respects K : respects sim (build_core K).
Proof.
  intros w1 w2 Hs. unfold build_core.
  set (R := λ s1 s2 : World * nat, sim s1.1 s2.1 ∧ s1.2 = s2.2).
  assert (respects R
    (for_ 0 (K / 2) (λ i, for_ 0 (K / 2) (λ j,
       for_ 0 (NUM_PODS K) (λ pod '(w, coreLink),
         w ← connect (PodNode pod (6 + i)) (CoreNode (i * (K / 2) + j))
                     (core_subnet coreLink)
                     ("pod" +:+ to_string pod +:+ "_aggr" +:+ to_string i
                      +:+ "_core" +:+ to_string (i * (K / 2) + j)) w;
         Some (w, S coreLink)))))) as Hloop.
  { apply respects_for. intros i. apply respects_for. intros j.
    apply respects_for. intros pod [u1 c1] [u2 c2] [Hu Hc]. simpl in Hu, Hc. subst c2.
    rewrite (connect_sim _ _ _ _ _ _ Hu).
    destruct (connect _ _ _ _ u2); simpl; constructor. split; [apply sim_refl|done]. }
  destruct (Hloop (w1, 0%nat) (w2, 0%nat)) as [[u1 c1] [u2 c2] [Hu _]|];
    [by split| |]; simpl; constructor. done.
Qed.

Lemma topology_from_sim K h1 h2 :
  option_Forall2 sim (topology_from h1 K) (topology_from h2 K).
Proof.
  unfold topology_from.
  apply respects_bind; [|apply create_nodes_respects; reflexivity].
  intros w1 w2 Hs.
  apply respects_bind; [apply build_core_respects|].
  by apply build_pods_respects.
Qed.

Lemma configure_servers_respects K : respects sim (configure_servers K).
Proof.
  unfold configure_servers. apply respects_for. intros pod.
  apply respects_for. intros server w1 w2 Hs.
  rewrite (GetAddress_sim _ _ _ _ Hs).
  destruct (GetAddress _ 1 w2); simpl; [|constructor].
  by apply SetDefaultRoute_respects.
Qed.

Lemma configure_access_respects K : respects sim (configure_access K).
Proof.
  unfold configure_access. apply respects_for. intros pod.
  apply respects_for. intros accessId w1 w2 Hs.
  rewrite !(GetAddress_sim _ _ _ _ Hs).
  destruct (GetAddress _ 1 w2) as [nextHop|]; simpl; [|constructor].
  destruct (GetAddress _ 0 w2) as [own|]; simpl; [|constructor].
  rewrite (GetInterfaceForAddress_sim _ _ _ _ Hs).
  apply respects_bind; [|by apply AddNetworkRouteTo_respects].
  apply respects_for. intros otherPod. case_decide.
  - apply AddNetworkRouteTo_respects.
  - by apply respects_Some.
Qed.

Lemma configure_aggregation_respects K : respects sim (configure_aggregation K).
Proof.
  unfold configure_aggregation. apply respects_for. intros pod.
  apply respects_for. intros aggrId w1 w2 Hs.
  apply respects_bind.
  - apply respects_for. intros j u1 u2 Hu.
    rewrite (GetAddress_sim _ _ _ _ Hu).
    destruct (GetAddress _ 1 u2) as [coreNextHop|]; simpl; [|constructor].
    revert u1 u2 Hu. apply respects_for. intros otherPod v1 v2 Hv.
    case_decide; [|by constructor].
    rewrite (GetAddress_sim _ _ _ _ Hv).
    destruct (GetAddress _ 0 v2) as [own|]; simpl; [|constructor].
    rewrite (GetInterfaceForAddress_sim _ _ _ _ Hv).
    by apply AddNetworkRouteTo_respects.
  - revert w1 w2 Hs. apply respects_for. intros accessId u1 u2 Hu.
    rewrite !(GetAddress_sim _ _ _ _ Hu).
    destruct (GetAddress _ 0 u2) as [nextHop|]; simpl; [|constructor].
    destruct (GetAddress _ 1 u2) as [own|]; simpl; [|constructor].
    rewrite (GetInterfaceForAddress_sim _ _ _ _ Hu).
    by apply AddNetworkRouteTo_respects.
Qed.

Lemma configure_core_respects K : respects sim (configure_core K).
Proof.
  unfold configure_core. apply respects_for. intros i.
  apply respects_for. intros j. apply respects_for. intros pod w1 w2 Hs.
  rewrite !(GetAddress_sim _ _ _ _ Hs).
  destruct (GetAddress _ 0 w2) as [nextHop|]; simpl; [|constructor].
  destruct (GetAddress _ 1 w2) as [own|]; simpl; [|constructor].
  rewrite (GetInterfaceForAddress_sim _ _ _ _ Hs).
  by apply AddNetworkRouteTo_respects.
Qed.

Lemma configure_routing_respects K : respects sim (configure_routing K).
Proof.
  intros w1 w2 Hs. unfold configure_routing.
  apply respects_bind; [|by apply configure_servers_respects].
  intros u1 u2 Hu.
  apply respects_bind; [|by apply configure_access_respects].
  intros v1 v2 Hv.
  apply respects_bind; [apply configure_core_respects|].
  by apply configure_aggregation_respects.
Qed.

Lemma main_from_sim K h1 h2 :
  option_Forall2 sim (main_from h1 K) (main_from h2 K).
Proof.
  unfold main_from.
  apply respects_bind; [apply configure_routing_respects|apply topology_from_sim].
Qed.

Lemma phase_orders_all :
  Forall (λ order, (topology 4 ≫= configure_in_order 4 order) = Some fabric)
         (permutations [Servers; Access; Aggregation; Core]).
Proof. by_evaluation. Qed.

(** C8. The address plan and the route tables are a function of k alone:
    whatever state the address helper starts in, the run yields the same
    interface addresses, links, interfaces and per-node tables (or fails in
    both cases); in particular a second run, started with the helper as the
    first run left it, reproduces the first run's output.  For k = 4 the
    four route passes can moreover be run in any order and yield the same
    world. *)
Theorem plan_and_tables_are_deterministic :
  (∀ K h1 h2, outputs <$> main_from h1 K = outputs <$> main_from h2 K) ∧
  (∀ K w, main K = Some w →
          outputs <$> main_from (address w) K = Some (outputs w)) ∧
  (∀ order, order ≡ₚ [Servers; Access; Aggregation; Core] →
            (topology 4 ≫= configure_in_order 4 order) = Some fabric).
Proof.
  assert (∀ K h1 h2, outputs <$> main_from h1 K = outputs <$> main_from h2 K)
    as Hany.
  { intros K h1 h2.
    destruct (main_from_sim K h1 h2) as [w1 w2 Hs|]; simpl; [|done].
    f_equal. exact Hs. }
  split; [exact Hany|]. split.
  - intros K w Hw. rewrite (Hany K (address w) helper0).
    fold (main K). by rewrite Hw.
  - intros order Horder. symmetry in Horder.
    apply permutations_Permutation in Horder.
    pose proof phase_orders_all as Hall. rewrite Forall_forall in Hall.
    by apply Hall.
Qed.

Lemma plan_and_tables_are_deterministic_witness :
  (topology 4 ≫= configure_in_order 4 [Core; Aggregation; Access; Servers])
  = Some fabric.
Proof.
  apply (proj2 (proj2 plan_and_tables_are_deterministic)).
  apply permutations_Permutation. apply (bool_decide_unpack _). vm_compute. exact I.
Defined.


(** *** Loops *)

Lemma for_None_absorbs {S : Type} (body : nat → S → option S) (l : list nat) :
  foldl (λ acc i, acc ≫= body i) None l = None.
Proof. by induction l. Qed.

(** A relation that every iteration respects is respected by the loop. *)
Lemma for_preserves {S : Type} (R : relation S) `{!PreOrder R}
    lo hi (body : nat → S → option S) :
  (∀ i s s', body i s = Some s' → R s s') →
  ∀ s s', for_ lo hi body s = Some s' → R s s'.
Proof.
  intros Hbody. unfold for_. induction (seq lo (hi - lo)) as [|i l IH]; intros s s'.
  - intros [= ->]. reflexivity.
  - simpl. destruct (body i s) as [s1|] eqn:Hs1.
    + intros Hrest. transitivity s1; [by eapply Hbody|by apply IH].
    + by rewrite for_None_absorbs.
Qed.

(** A counter that every iteration advances by [c] advances by [c] times
    the number of iterations. *)
Lemma for_measure {S : Type} (μ : S → nat) (c : nat)
    lo hi (body : nat → S → option S) :
  (∀ i s s', body i s = Some s' → μ s' = (μ s + c)%nat) →
  ∀ s s', for_ lo hi body s = Some s' → μ s' = (μ s + (hi - lo) * c)%nat.
Proof.
  intros Hbody s s'. unfold for_.
  replace ((hi - lo) * c)%nat with (length (seq lo (hi - lo)) * c)%nat
    by (by rewrite length_seq).
  revert s s'. induction (seq lo (hi - lo)) as [|i l IH]; intros s s'.
  - intros [= ->]. simpl. lia.
  - simpl. destruct (body i s) as [s1|] eqn:Hs1.
    + intros Hrest. rewrite (IH _ _ Hrest), (Hbody _ _ _ Hs1). lia.
    + by rewrite for_None_absorbs.
Qed.

(** *** Route synthesis only appends *)

#[local] Instance extends_preorder : PreOrder extends.
Proof.
  split.
  - intros w. unfold extends. split_and!; [done..|]. by intros n.
  - intros w1 w2 w3 (Ha & Hi & Hp & Hl & Ht) (Ha' & Hi' & Hp' & Hl' & Ht').
    unfold extends. split_and!; [congruence..|].
    intros n. transitivity (table w2 n); [apply Ht|apply Ht'].
Qed.

Lemma table_add_route n r w n' :
  table (add_route n r w) n' = if decide (n = n') then table w n ++ [r] else table w n'.
Proof.
  unfold table, add_route. simpl. rewrite lookup_insert.
  case_decide; by subst.
Qed.

Lemma add_route_extends n r w : extends w (add_route n r w).
Proof.
  unfold extends. split_and!; [done..|]. intros n'. rewrite table_add_route.
  case_decide; [subst; by apply prefix_app_r|done].
Qed.

Lemma AddNetworkRouteTo_extends n network mask nextHop interface w w' :
  AddNetworkRouteTo n network mask nextHop interface w = Some w' → extends w w'.
Proof.
  unfold AddNetworkRouteTo. intros H.
  destruct (Ipv4Address network); [|done]. destruct (Ipv4Mask mask); [|done].
  simpl in H. injection H as <-. apply add_route_extends.
Qed.

Lemma SetDefaultRoute_extends n nextHop interface w w' :
  SetDefaultRoute n nextHop interface w = Some w' → extends w w'.
Proof. intros [= <-]. apply add_route_extends. Qed.

Lemma configure_servers_extends K w w' :
  configure_servers K w = Some w' → extends w w'.
Proof.
  apply for_preserves; [apply _|]. intros pod. apply for_preserves; [apply _|].
  intros server s s' H. apply bind_Some in H as (gw & _ & H).
  by eapply SetDefaultRoute_extends.
Qed.

Lemma configure_access_extends K w w' :
  configure_access K w = Some w' → extends w w'.
Proof.
  apply for_preserves; [apply _|]. intros pod. apply for_preserves; [apply _|].
  intros accessId s s' H.
  apply bind_Some in H as (nextHop & _ & H). apply bind_Some in H as (own & _ & H).
  apply bind_Some in H as (s1 & H1 & H).
  transitivity s1; [by eapply AddNetworkRouteTo_extends|].
  revert H. apply for_preserves; [apply _|]. intros otherPod u u' Hu.
  case_decide; [by eapply AddNetworkRouteTo_extends|]. injection Hu as <-. reflexivity.
Qed.

Lemma configure_aggregation_extends K w w' :
  configure_aggregation K w = Some w' → extends w w'.
Proof.
  apply for_preserves; [apply _|]. intros pod. apply for_preserves; [apply _|].
  intros aggrId s s' H. apply bind_Some in H as (s1 & H1 & H).
  transitivity s1.
  - revert H1. apply for_preserves; [apply _|]. intros accessId u u' Hu.
    apply bind_Some in Hu as (nextHop & _ & Hu). apply bind_Some in Hu as (own & _ & Hu).
    by eapply AddNetworkRouteTo_extends.
  - revert H. apply for_preserves; [apply _|]. intros j u u' Hu.
    apply bind_Some in Hu as (coreNextHop & _ & Hu).
    revert Hu. apply for_preserves; [apply _|]. intros otherPod v v' Hv.
    case_decide; [|injection Hv as <-; reflexivity].
    apply bind_Some in Hv as (own & _ & Hv). by eapply AddNetworkRouteTo_extends.
Qed.

Lemma configure_core_extends K w w' :
  configure_core K w = Some w' → extends w w'.
Proof.
  apply for_preserves; [apply _|]. intros i. apply for_preserves; [apply _|].
  intros j. apply for_preserves; [apply _|]. intros pod s s' H.
  apply bind_Some in H as (nextHop & _ & H). apply bind_Some in H as (own & _ & H).
  by eapply AddNetworkRouteTo_extends.
Qed.

(** X1. Section 5 of [main] only appends routes.  For every [K] and every
    world in which the four route passes run to completion, the address
    helper, the stored interface containers, every node's interfaces and
    the links are what they were, and every node's table starts with the
    entries it held before: no pass removes, replaces or reorders an
    entry, whatever was installed earlier. *)
Theorem synthesis_only_appends (K : nat) (w w' : World) :
  configure_routing K w = Some w' →
  address w' = address w ∧ interfaces w' = interfaces w ∧
  ipv4 w' = ipv4 w ∧ links w' = links w ∧
  ∀ n, table w n `prefix_of` table w' n.
Proof.
  unfold configure_routing. intros H.
  apply bind_Some in H as (w1 & H1 & H). apply bind_Some in H as (w2 & H2 & H).
  apply bind_Some in H as (w3 & H3 & H).
  apply configure_servers_extends in H1. apply configure_access_extends in H2.
  apply configure_aggregation_extends in H3. apply configure_core_extends in H.
  change (extends w w'). by repeat (etransitivity; [eassumption|]).
Qed.

(** *** Size of the fabric *)

Lemma connect_links a b subnet key w w' :
  connect a b subnet key w = Some w' →
  links w' = links w ++ [mkLink a b subnet key] ∧
  staticRouting w' = staticRouting w.
Proof.
  unfold connect, SetBase. intros H.
  destruct (Ipv4Address subnet); [|done]. destruct (Ipv4Mask mask30); [|done].
  simpl in H. by injection H as <-.
Qed.

Lemma connect_adds_one_link a b subnet key w w' :
  connect a b subnet key w = Some w' →
  length (links w') = (length (links w) + 1)%nat.
Proof. intros [-> _]%connect_links. by rewrite length_app. Qed.

Lemma create_nodes_no_link K w w' :
  create_nodes K w = Some w' →
  links w' = links w ∧ staticRouting w' = staticRouting w.
Proof.
  set (R := λ u u' : World, links u' = links u ∧ staticRouting u' = staticRouting u).
  assert (PreOrder R) as HR.
  { split; [done|]. intros u1 u2 u3 [? ?] [? ?]. split; congruence. }
  unfold create_nodes. intros H. apply bind_Some in H as (w1 & H1 & H).
  change (R w w'). transitivity w1.
  - revert H1. apply for_preserves; [done|]. intros i. apply for_preserves; [done|].
    by intros idx u u' [= <-].
  - revert H. apply for_preserves; [done|]. by intros c u u' [= <-].
Qed.

Lemma build_pods_links K w w' :
  build_pods K w = Some w' →
  length (links w') = (length (links w) + K * 8)%nat.
Proof.
  unfold build_pods, NUM_PODS. intros H.
  eapply (for_measure (λ u, length (links u)) 8) in H; [simpl in H; lia|].
  clear. intros pod u u' H. apply bind_Some in H as (u1 & H1 & H).
  eapply (for_measure (λ u, length (links u)) 1) in H1;
    [|intros server v v'; apply connect_adds_one_link].
  eapply (for_measure (λ u, length (links u)) 2) in H; [simpl in *; lia|].
  intros lower v v' Hv.
  eapply (for_measure (λ u, length (links u)) 1) in Hv; [simpl in *; lia|].
  intros upper x x'. apply connect_adds_one_link.
Qed.

Lemma build_core_links K w w' :
  build_core K w = Some w' →
  length (links w') = (length (links w) + (K / 2) * ((K / 2) * K))%nat.
Proof.
  unfold build_core, NUM_PODS. intros H.
  apply fmap_Some in H as ([u c] & H & ->). cbn [fst].
  eapply (for_measure (λ s : World * nat, length (links s.1))
            ((K / 2) * K)) in H; [cbn beta in H; cbn [fst] in H; lia|].
  clear. intros i s s' H.
  eapply (for_measure (λ s : World * nat, length (links s.1)) K) in H;
    [cbn beta in H; lia|].
  clear. intros j s s' H.
  eapply (for_measure (λ s : World * nat, length (links s.1)) 1) in H;
    [cbn beta in H; lia|].
  clear. intros pod [v cl] [v' cl'] H. cbn [fst].
  apply bind_Some in H as (v1 & H1 & [= <- <-]).
  by eapply connect_adds_one_link.
Qed.

Lemma topology_no_route K h w :
  topology_from h K = Some w → staticRouting w = ∅.
Proof.
  unfold topology_from. intros H.
  apply bind_Some in H as (w1 & H1 & H). apply bind_Some in H as (w2 & H2 & H).
  apply create_nodes_no_link in H1 as [_ H1].
  set (R := λ u u' : World, staticRouting u' = staticRouting u).
  assert (PreOrder R) as HR
    by (split; [done|]; intros u1 u2 u3 ? ?; unfold R in *; congruence).
  assert (R w1 w2) as H12.
  { revert H2. apply for_preserves; [done|]. intros pod u u' Hu.
    apply bind_Some in Hu as (u1 & Hu1 & Hu). transitivity u1.
    - revert Hu1. apply for_preserves; [done|].
      intros server v v' Hv. by apply connect_links in Hv as [_ ?].
    - revert Hu. apply for_preserves; [done|]. intros lower.
      apply for_preserves; [done|].
      intros upper v v' Hv. by apply connect_links in Hv as [_ ?]. }
  assert (R w2 w) as H2w.
  { unfold build_core in H. apply fmap_Some in H as ([u c] & H & ->).
    set (R' := λ s s' : World * nat, R s.1 s'.1).
    assert (PreOrder R') as HR'.
    { split; [done|]. intros s1 s2 s3 ? ?. unfold R', R in *. congruence. }
    change (R' (w2, 0%nat) (u, c)). revert H.
    apply for_preserves; [done|]. intros i. apply for_preserves; [done|].
    intros j. apply for_preserves; [done|]. intros pod [v cl] [v' cl'] Hv.
    apply bind_Some in Hv as (v1 & Hv1 & [= <- <-]).
    by apply connect_links in Hv1 as [_ ?]. }
  unfold R in *. by rewrite H2w, H12, H1.
Qed.

(** X2. For every [K] and every initial state of the address helper, when
    sections 3 and 4 of [main] run to completion they have created exactly
    [8 * K + (K / 2) * (K / 2) * K] links (four server links and four
    access-to-aggregation links per pod, and one link per pod for each of
    the [(K / 2) * (K / 2)] core switches) and installed no route. *)
Theorem fabric_link_count (K : nat) (h : Ipv4AddressHelper) (w : World) :
  topology_from h K = Some w →
  length (links w) = (8 * K + (K / 2) * (K / 2) * K)%nat ∧
  staticRouting w = ∅.
Proof.
  intros H. split; [|by eapply topology_no_route].
  unfold topology_from in H.
  apply bind_Some in H as (w1 & H1 & H). apply bind_Some in H as (w2 & H2 & H).
  apply create_nodes_no_link in H1 as [H1 _].
  apply build_pods_links in H2. apply build_core_links in H.
  rewrite H, H2, H1. cbn [world0 links length]. rewrite Nat.mul_assoc. lia.
Qed.

Lemma fabric_link_count_witness :
  ∃ w, topology_from helper0 4 = Some w ∧
       length (links w) = 48%nat ∧ staticRouting w = ∅.
Proof.
  assert (is_Some (topology_from helper0 4)) as [w E].
  { apply (bool_decide_unpack _). vm_compute. exact I. }
  exists w. split; [exact E|]. exact (fabric_link_count 4 helper0 w E).
Defined.

Lemma synthesis_only_appends_witness :
  ∃ w, topology_from helper0 4 = Some w ∧
  ∃ w', configure_routing 4 w = Some w' ∧
    (address w' = address w ∧ interfaces w' = interfaces w ∧
     ipv4 w' = ipv4 w ∧ links w' = links w ∧
     ∀ n, table w n `prefix_of` table w' n).
Proof.
  assert (∃ w, topology_from helper0 4 = Some w ∧
          ∃ w', configure_routing 4 w = Some w' ∧ True) as (w & Hw & w' & Hw' & _).
  { apply (bool_decide_unpack _). vm_compute. exact I. }
  exists w. split; [exact Hw|]. exists w'. split; [exact Hw'|].
  exact (synthesis_only_appends 4 w w' Hw').
Defined.

(** *** One link *)

Lemma ifaces_add_interface n i m n' :
  default [] (add_interface n i m !! n')
  = if decide (n = n') then default [] (m !! n) ++ [i] else default [] (m !! n').
Proof.
  unfold add_interface. rewrite lookup_insert. case_decide; by subst.
Qed.

Lemma list_find_snoc {A} (P : A → Prop) `{!∀ x, Decision (P x)} (l : list A) (x : A) :
  Forall (λ y, ¬ P y) l → P x → list_find P (l ++ [x]) = Some (length l, x).
Proof.
  intros Hl Hx. induction Hl as [|y l Hy Hl IH]; simpl.
  - by rewrite decide_True.
  - rewrite decide_False by done. by rewrite IH.
Qed.

Lemma held_nowhere (w : World) (x : Z) :
  map_Forall (λ _ l, x ∉ if_local <$> l) (ipv4 w) →
  ∀ n, x ∉ if_local <$> ifaces w n.
Proof.
  intros H n. unfold ifaces. destruct (ipv4 w !! n) as [l|] eqn:E; simpl.
  - by apply (H n l).
  - by intros ?%elem_of_nil.
Qed.

Lemma host_addresses_differ (net : Z) :
  Z.lor (Z.land net 4294967292) 1 ≠ Z.lor (Z.land net 4294967292) 2.
Proof.
  intros H. apply (f_equal (λ x, Z.testbit x 0)) in H.
  rewrite !Z.lor_spec, Z.land_spec in H. simpl in H.
  rewrite andb_false_r in H. done.
Qed.

(** X3. One link of section 4, then the lookups of section 5.  When the
    subnet string parses, both (distinct) nodes have their stack, so that
    interface 0 is the loopback, and no node holds either host address of
    the /30 yet, the link is created, and afterwards:
    [interfaces[key].GetAddress (0)] and [(1)] are the first and the
    second host address of the /30; [GetInterfaceForAddress] on either node
    returns the index of the interface just added, which is the number of
    interfaces the node had and never 0; the node reached through that
    interface is the other end of the link; each of the two addresses is
    held by exactly one node; the containers stored under other keys, the
    interfaces of other nodes and all route tables are untouched. *)
Theorem connect_then_lookup (a b : Node) (subnet key : string) (w : World) (net : Z) :
  Ipv4Address subnet = Some net →
  a ≠ b →
  head (ifaces w a) = Some loopback →
  head (ifaces w b) = Some loopback →
  (∀ n, Z.lor (Z.land net 4294967292) 1 ∉ if_local <$> ifaces w n) →
  (∀ n, Z.lor (Z.land net 4294967292) 2 ∉ if_local <$> ifaces w n) →
  ∃ w', connect a b subnet key w = Some w' ∧
    GetAddress key 0 w' = Some (Z.lor (Z.land net 4294967292) 1) ∧
    GetAddress key 1 w' = Some (Z.lor (Z.land net 4294967292) 2) ∧
    GetInterfaceForAddress a (Z.lor (Z.land net 4294967292) 1) w'
      = Z.of_nat (length (ifaces w a)) ∧
    GetInterfaceForAddress b (Z.lor (Z.land net 4294967292) 2) w'
      = Z.of_nat (length (ifaces w b)) ∧
    (0 < length (ifaces w a))%nat ∧ (0 < length (ifaces w b))%nat ∧
    peer_on w' a (Z.of_nat (length (ifaces w a))) = Some b ∧
    peer_on w' b (Z.of_nat (length (ifaces w b))) = Some a ∧
    (∀ n, Z.lor (Z.land net 4294967292) 1 ∈ if_local <$> ifaces w' n ↔ n = a) ∧
    (∀ n, Z.lor (Z.land net 4294967292) 2 ∈ if_local <$> ifaces w' n ↔ n = b) ∧
    (∀ key', key' ≠ key → interfaces w' !! key' = interfaces w !! key') ∧
    (∀ n, n ≠ a → n ≠ b → ifaces w' n = ifaces w n) ∧
    staticRouting w' = staticRouting w.
Proof.
  intros Hnet Hab Hsa Hsb Ha Hb.
  assert (∀ (l : list Ipv4Interface) x, x ∉ if_local <$> l →
            Forall (λ y, ¬ if_local y = x) l) as Hfresh.
  { intros l x Hx. apply Forall_forall. intros y Hy Heq. apply Hx.
    apply list_elem_of_fmap. by exists y. }
  pose proof (host_addresses_differ net) as Hdiff.
  unfold connect, SetBase. rewrite Hnet. simpl.
  eexists. split; [reflexivity|].
  match goal with |- context [GetAddress key 0 ?W] => set (w' := W) end.
  assert (∀ n, ifaces w' n
          = if decide (n = a)
            then ifaces w a
                 ++ [mkIface (Z.lor (Z.land net 4294967292) 1) 4294967292 (Some b)]
            else if decide (n = b)
                 then ifaces w b
                      ++ [mkIface (Z.lor (Z.land net 4294967292) 2) 4294967292 (Some a)]
                 else ifaces w n) as Hif.
  { intros n. unfold ifaces, w'. cbn [ipv4]. rewrite !ifaces_add_interface.
    destruct (decide (n = a)) as [->|Hna].
    - rewrite (decide_False (P := b = a)) by done. by rewrite decide_True.
    - destruct (decide (n = b)) as [->|Hnb].
      + rewrite decide_True by done. by rewrite (decide_False (P := a = b)).
      + rewrite (decide_False (P := b = n)) by done.
        by rewrite (decide_False (P := a = n)). }
  pose proof (Hif a) as Hifa. rewrite decide_True in Hifa by done.
  pose proof (Hif b) as Hifb.
  rewrite (decide_False (P := b = a)), decide_True in Hifb by done.
  split_and!.
  - unfold GetAddress, w'. cbn [interfaces]. by rewrite lookup_insert_eq.
  - unfold GetAddress, w'. cbn [interfaces]. by rewrite lookup_insert_eq.
  - unfold GetInterfaceForAddress.
    change (default [] (ipv4 w' !! a)) with (ifaces w' a).
    rewrite Hifa, list_find_snoc by (try apply Hfresh; done). done.
  - unfold GetInterfaceForAddress.
    change (default [] (ipv4 w' !! b)) with (ifaces w' b).
    rewrite Hifb, list_find_snoc by (try apply Hfresh; done). done.
  - destruct (ifaces w a); [done|simpl; lia].
  - destruct (ifaces w b); [done|simpl; lia].
  - unfold peer_on. rewrite Hifa, Nat2Z.id.
    by rewrite lookup_app_r, Nat.sub_diag by done.
  - unfold peer_on. rewrite Hifb, Nat2Z.id.
    by rewrite lookup_app_r, Nat.sub_diag by done.
  - intros n. rewrite Hif. destruct (decide (n = a)) as [->|Hna].
    + split; [done|]. intros _. rewrite fmap_app. apply elem_of_app. right.
      by apply list_elem_of_singleton.
    + split; [|done]. destruct (decide (n = b)) as [->|Hnb].
      * rewrite fmap_app. intros [H|H]%elem_of_app; [by apply Ha in H|].
        apply list_elem_of_singleton in H. simpl in H. done.
      * intros H. by apply Ha in H.
  - intros n. rewrite Hif. destruct (decide (n = a)) as [->|Hna].
    + split; [|done]. rewrite fmap_app.
      intros [H|H]%elem_of_app; [by apply Hb in H|].
      apply list_elem_of_singleton in H. simpl in H. done.
    + destruct (decide (n = b)) as [->|Hnb].
      * split; [done|]. intros _. rewrite fmap_app. apply elem_of_app. right.
        by apply list_elem_of_singleton.
      * split; [|done]. intros H. by apply Hb in H.
  - intros key' Hkey. unfold w'. cbn [interfaces]. by rewrite lookup_insert_ne.
  - intros n Hna Hnb. rewrite Hif. by rewrite !decide_False by done.
  - done.
Qed.

(** The second link the program creates: the nodes have their stacks and
    the first link, from server 0 of pod 0 to access switch 0, is in
    place. *)
Lemma connect_then_lookup_witness :
  let w := default (world0 helper0)
             (w ← create_nodes 4 (world0 helper0);
              connect (PodNode 0 0) (PodNode 0 4) "10.0.0.0" "pod0_server0" w) in
  ∃ w', connect (PodNode 0 1) (PodNode 0 4) "10.0.0.4" "pod0_server1" w = Some w' ∧
    GetAddress "pod0_server1" 0 w' = Some 167772165 ∧
    GetAddress "pod0_server1" 1 w' = Some 167772166 ∧
    GetInterfaceForAddress (PodNode 0 1) 167772165 w' = 1 ∧
    GetInterfaceForAddress (PodNode 0 4) 167772166 w' = 2 ∧
    peer_on w' (PodNode 0 1) 1 = Some (PodNode 0 4) ∧
    peer_on w' (PodNode 0 4) 2 = Some (PodNode 0 1).
Proof.
  intros w.
  assert (Ipv4Address "10.0.0.4" = Some 167772164) as Hnet by reflexivity.
  assert (PodNode 0 1 ≠ PodNode 0 4) as Hab by discriminate.
  assert (head (ifaces w (PodNode 0 1)) = Some loopback) as Hsa
    by (vm_compute; reflexivity).
  assert (head (ifaces w (PodNode 0 4)) = Some loopback) as Hsb
    by (vm_compute; reflexivity).
  assert (map_Forall (λ _ l, Z.lor (Z.land 167772164 4294967292) 1 ∉ if_local <$> l)
                     (ipv4 w)) as Ha by by_evaluation.
  assert (map_Forall (λ _ l, Z.lor (Z.land 167772164 4294967292) 2 ∉ if_local <$> l)
                     (ipv4 w)) as Hb by by_evaluation.
  assert (length (ifaces w (PodNode 0 1)) = 1%nat) as Hla by (vm_compute; reflexivity).
  assert (length (ifaces w (PodNode 0 4)) = 2%nat) as Hlb by (vm_compute; reflexivity).
  destruct (connect_then_lookup (PodNode 0 1) (PodNode 0 4) "10.0.0.4"
              "pod0_server1" w 167772164 Hnet Hab Hsa Hsb
              (held_nowhere w _ Ha) (held_nowhere w _ Hb))
    as (w' & Hw' & H0 & H1 & Hia & Hib & _ & _ & Hpa & Hpb & _).
  rewrite Hla in Hia, Hpa. rewrite Hlb in Hib, Hpb.
  exists w'. split_and!; assumption.
Defined.

(** *** Dotted quads written with [std::to_string] *)

Lemma to_uint_not_Nil (n : nat) : Nat.to_uint n ≠ Nil.
Proof.
  intros H. pose proof (Unsigned.of_to n) as Hn. rewrite H in Hn.
  simpl in Hn. subst n. discriminate.
Qed.

(** Reading the digits of a decimal numeral continues the number read so
    far. *)
Lemma octets_go_uint (d : uint) (rest : string) (c : nat) (cur : option Z)
    (acc : list Z) :
  d ≠ Nil →
  default 0 cur = Z.of_nat c →
  octets_go (NilEmpty.string_of_uint d +:+ rest) cur acc
  = octets_go rest (Some (Z.of_nat (Nat.of_uint_acc d c))) acc.
Proof.
  revert c cur.
  induction d as [|d IH|d IH|d IH|d IH|d IH|d IH|d IH|d IH|d IH|d IH];
    intros c cur Hd Hc; [done|..];
    (simpl;
     match goal with
     | |- context [Z.of_nat (nat_of_ascii ?ch) - 48] =>
         let v := eval vm_compute in (Z.of_nat (nat_of_ascii ch) - 48) in
         change (Z.of_nat (nat_of_ascii ch) - 48) with v
     end;
     rewrite Hc, Nat.tail_mul_spec;
     assert (d = Nil ∨ d ≠ Nil) as [->|Hne] by (destruct d; [left|right..]; done);
     [ simpl; apply (f_equal (λ v, octets_go rest (Some v) acc)); lia
     | match goal with
       | |- context [Nat.of_uint_acc d ?c'] =>
           rewrite (IH c') by (done || (unfold default; cbn [from_option id]; lia))
       end; done ]).
Qed.

Lemma octets_go_to_string (n : nat) (rest : string) (acc : list Z) :
  octets_go (to_string n +:+ rest) None acc
  = octets_go rest (Some (Z.of_nat n)) acc.
Proof.
  unfold to_string.
  rewrite (octets_go_uint _ _ 0 None) by (apply to_uint_not_Nil || done).
  change (Nat.of_uint_acc (Nat.to_uint n) 0) with (Nat.of_uint (Nat.to_uint n)).
  by rewrite Unsigned.of_to.
Qed.

Lemma octets_go_dot (s : string) (v : Z) (acc : list Z) :
  octets_go ("." +:+ s) (Some v) acc = octets_go s None (acc ++ [v]).
Proof. reflexivity. Qed.

Lemma string_app_empty (s : string) : s +:+ "" = s.
Proof.
  induction s as [|ch s IH]; [done|].
  change (String ch (s +:+ "") = String ch s). by rewrite IH.
Qed.

(** *** Bit arithmetic of addresses and prefix masks *)

Lemma testbit_small (y n k : Z) :
  0 ≤ y < 2 ^ k → k ≤ n → Z.testbit y n = false.
Proof.
  intros [Hy0 Hy] Hn.
  destruct (decide (y = 0)) as [->|Hne]; [apply Z.bits_0|].
  apply Z.bits_above_log2; [done|].
  assert (Z.log2 y < k); [|lia].
  apply Z.log2_lt_pow2; lia.
Qed.

Lemma lor_shiftl_low (x y k : Z) :
  0 ≤ k → 0 ≤ y < 2 ^ k → Z.lor (Z.shiftl x k) y = x * 2 ^ k + y.
Proof.
  intros Hk Hy. rewrite <- Z.shiftl_mul_pow2 by done.
  symmetry. apply Z.add_nocarry_lor. apply Z.bits_inj'. intros n Hn.
  rewrite Z.land_spec, Z.bits_0.
  destruct (Z.lt_ge_cases n k).
  - by rewrite Z.shiftl_spec_low.
  - by rewrite (testbit_small y n k), andb_false_r.
Qed.

(** The value of a dotted quad with octets in range. *)
Lemma quad_value (a b c d : Z) :
  0 ≤ a → 0 ≤ b ≤ 255 → 0 ≤ c ≤ 255 → 0 ≤ d ≤ 255 →
  Z.lor (Z.shiftl a 24) (Z.lor (Z.shiftl b 16) (Z.lor (Z.shiftl c 8) d))
  = 16777216 * a + 65536 * b + 256 * c + d.
Proof.
  intros Ha Hb Hc Hd.
  rewrite (lor_shiftl_low c d 8) by lia.
  rewrite (lor_shiftl_low b _ 16) by lia.
  rewrite (lor_shiftl_low a _ 24) by lia.
  lia.
Qed.

(** A prefix mask of length [32 - k] clears the low [k] bits. *)
Lemma land_prefix_mask (k x : Z) :
  0 ≤ k ≤ 32 → 0 ≤ x < 2 ^ 32 →
  Z.land x (2 ^ 32 - 2 ^ k) = 2 ^ k * (x / 2 ^ k).
Proof.
  intros Hk Hx.
  replace (2 ^ 32 - 2 ^ k) with (Z.shiftl (Z.ones (32 - k)) k).
  2:{ rewrite Z.shiftl_mul_pow2, Z.ones_equiv by lia.
      replace (2 ^ 32) with (2 ^ (32 - k) * 2 ^ k)
        by (rewrite <- Z.pow_add_r by lia; f_equal; lia).
      lia. }
  rewrite <- Z.shiftr_div_pow2, Z.mul_comm, <- Z.shiftl_mul_pow2 by lia.
  apply Z.bits_inj'. intros n Hn. rewrite Z.land_spec.
  destruct (Z.lt_ge_cases n k).
  - by rewrite !Z.shiftl_spec_low, andb_false_r.
  - rewrite !Z.shiftl_spec, Z.shiftr_spec by lia.
    replace (n - k + k) with n by lia.
    destruct (Z.lt_ge_cases n 32).
    + by rewrite Z.ones_spec_low, andb_true_r by lia.
    + by rewrite (testbit_small x n 32), Z.ones_spec_high by lia.
Qed.

(** The address a string of four decimal fields denotes. *)
Lemma Ipv4Address_dotted (a b c d : nat) :
  Ipv4Address (to_string a +:+ "." +:+ to_string b +:+ "." +:+ to_string c
               +:+ "." +:+ to_string d)
  = if decide (a ≤ 255 ∧ b ≤ 255 ∧ c ≤ 255 ∧ d ≤ 255)%nat
    then Some (16777216 * Z.of_nat a + 65536 * Z.of_nat b + 256 * Z.of_nat c
               + Z.of_nat d)
    else None.
Proof.
  unfold Ipv4Address.
  rewrite octets_go_to_string, octets_go_dot, octets_go_to_string, octets_go_dot,
    octets_go_to_string, octets_go_dot.
  rewrite <- (string_app_empty (to_string d)), octets_go_to_string.
  cbn. case_decide as Hr.
  - destruct Hr as (Ha & Hb & Hc & Hd).
    rewrite !(proj2 (Z.leb_le _ _)) by lia. cbn [andb].
    f_equal. apply quad_value; lia.
  - destruct (Z.leb_spec (Z.of_nat a) 255), (Z.leb_spec (Z.of_nat b) 255),
      (Z.leb_spec (Z.of_nat c) 255), (Z.leb_spec (Z.of_nat d) 255);
      cbn [andb]; try done.
    exfalso. apply Hr. lia.
Qed.

(** X4. [GetFatTreeIP] writes an address exactly when its arguments are
    octets: for non-negative [pod], [sw] and [id] the string it returns
    parses as an IPv4 address if and only if all three are at most 255,
    and then it is 10.pod.sw.id.  The function itself checks nothing. *)
Theorem GetFatTreeIP_value (pod sw id : nat) :
  Ipv4Address (GetFatTreeIP pod sw id)
  = if decide (pod ≤ 255 ∧ sw ≤ 255 ∧ id ≤ 255)%nat
    then Some (167772160 + 65536 * Z.of_nat pod + 256 * Z.of_nat sw + Z.of_nat id)
    else None.
Proof.
  change (GetFatTreeIP pod sw id)
    with (to_string 10 +:+ "." +:+ to_string pod +:+ "." +:+ to_string sw
          +:+ "." +:+ to_string id).
  rewrite Ipv4Address_dotted.
  repeat case_decide; try done; [f_equal; lia|exfalso; lia..].
Qed.

Lemma in_subnet30_spec (a n : Z) :
  0 ≤ a < 2 ^ 32 → 0 ≤ n < 2 ^ 32 →
  in_subnet30 a n ↔ a / 4 = n / 4.
Proof.
  intros Ha Hn. unfold in_subnet30, IsMatch. rewrite bool_decide_eq_true.
  change 4294967292 with (2 ^ 32 - 2 ^ 2).
  rewrite !land_prefix_mask by lia. change (2 ^ 2) with 4. lia.
Qed.

(** X5. The subnet of aggregation-to-core link number [c] (the running
    counter [coreLink]): the string parses if and only if [c < 16384], that
    is as long as the third octet [c / 64] fits, and then it is the /30 at
    10.10.0.0 + 4 * c.  Two different core links therefore never share an
    address, whatever [K] is. *)
Theorem core_subnet_capacity (c : nat) :
  Ipv4Address (core_subnet c)
  = (if decide (Z.of_nat c < 16384) then Some (168427520 + 4 * Z.of_nat c) else None) ∧
  ∀ c' n n',
    c' ≠ c →
    Ipv4Address (core_subnet c) = Some n →
    Ipv4Address (core_subnet c') = Some n' →
    ∀ a, 0 ≤ a < 2 ^ 32 → ¬ (in_subnet30 a n ∧ in_subnet30 a n').
Proof.
  assert (∀ c, Ipv4Address (core_subnet c)
               = if decide (Z.of_nat c < 16384)
                 then Some (168427520 + 4 * Z.of_nat c) else None) as Hval.
  { clear c. intros c.
    change (core_subnet c)
      with (to_string 10 +:+ "." +:+ to_string 10 +:+ "." +:+ to_string (c / 64)
            +:+ "." +:+ to_string (c mod 64 * 4)).
    rewrite Ipv4Address_dotted.
    pose proof (Nat.div_mod_eq c 64). pose proof (Nat.mod_upper_bound c 64).
    repeat case_decide; try done; [f_equal; lia|exfalso; lia..]. }
  split; [apply Hval|].
  intros c' n n' Hne Hn Hn' a Ha [H1 H2].
  rewrite Hval in Hn, Hn'. repeat case_decide; try done.
  injection Hn as <-. injection Hn' as <-.
  change (2 ^ 32) with 4294967296 in *.
  apply in_subnet30_spec in H1; [|change (2 ^ 32) with 4294967296; lia..].
  apply in_subnet30_spec in H2; [|change (2 ^ 32) with 4294967296; lia..].
  rewrite (Z.mul_comm 4), Z.div_add in H1, H2 by done.
  assert (Z.of_nat c = Z.of_nat c') as Heq by lia.
  apply Nat2Z.inj in Heq. congruence.
Qed.

Lemma core_subnet_capacity_witness :
  ¬ (in_subnet30 168427521 168427520 ∧ in_subnet30 168427521 168427524).
Proof.
  apply (proj2 (core_subnet_capacity 0) 1%nat 168427520 168427524).
  - discriminate.
  - reflexivity.
  - reflexivity.
  - split; [done|reflexivity].
Defined.

(** *** Wiring, stored interfaces and journeys of the k = 4 fabric *)

Lemma fabric_neighbours_all :
  Forall (λ pod,
    Forall (λ server, neighbours fabric (PodNode pod server)
                      = [PodNode pod (4 + server / 2)]) (seq 0 4) ∧
    Forall (λ accessId, neighbours fabric (PodNode pod (4 + accessId))
                      = [PodNode pod (2 * accessId); PodNode pod (2 * accessId + 1);
                         PodNode pod 6; PodNode pod 7]) (seq 0 2) ∧
    Forall (λ aggrId, neighbours fabric (PodNode pod (6 + aggrId))
                      = [PodNode pod 4; PodNode pod 5;
                         CoreNode (2 * aggrId); CoreNode (2 * aggrId + 1)]) (seq 0 2))
    (seq 0 4) ∧
  Forall (λ c, neighbours fabric (CoreNode c)
               = (λ pod, PodNode pod (6 + c / 2)) <$> seq 0 4) (seq 0 4).
Proof. by_evaluation. Qed.

(** X6. The links the loops of section 4 create for k = 4, read back from
    the interfaces of the nodes (in interface order, the loopback apart):
    a server is attached to one access switch, servers 0-1 to the first and
    2-3 to the second; an access switch to its two servers and then to both
    aggregation switches of its pod; aggregation switch [aggrId] to both
    access switches and then to the core switches [2 * aggrId] and
    [2 * aggrId + 1] only; core switch [c] to aggregation switch [c / 2] of
    every pod, in pod order. *)
Theorem fabric_is_wired_as_a_fat_tree :
  (∀ pod server, (pod < 4)%nat → (server < 4)%nat →
     neighbours fabric (PodNode pod server) = [PodNode pod (4 + server / 2)]) ∧
  (∀ pod accessId, (pod < 4)%nat → (accessId < 2)%nat →
     neighbours fabric (PodNode pod (4 + accessId))
     = [PodNode pod (2 * accessId); PodNode pod (2 * accessId + 1);
        PodNode pod 6; PodNode pod 7]) ∧
  (∀ pod aggrId, (pod < 4)%nat → (aggrId < 2)%nat →
     neighbours fabric (PodNode pod (6 + aggrId))
     = [PodNode pod 4; PodNode pod 5;
        CoreNode (2 * aggrId); CoreNode (2 * aggrId + 1)]) ∧
  (∀ c, (c < 4)%nat →
     neighbours fabric (CoreNode c) = (λ pod, PodNode pod (6 + c / 2)) <$> seq 0 4).
Proof.
  destruct fabric_neighbours_all as [Hpods Hcore].
  rewrite Forall_forall in Hpods. rewrite Forall_forall in Hcore.
  split_and!.
  - intros pod server Hp Hs.
    destruct (Hpods pod (below_in_seq _ _ Hp)) as (H & _ & _).
    rewrite Forall_forall in H. exact (H server (below_in_seq _ _ Hs)).
  - intros pod accessId Hp Hs.
    destruct (Hpods pod (below_in_seq _ _ Hp)) as (_ & H & _).
    rewrite Forall_forall in H. exact (H accessId (below_in_seq _ _ Hs)).
  - intros pod aggrId Hp Hs.
    destruct (Hpods pod (below_in_seq _ _ Hp)) as (_ & _ & H).
    rewrite Forall_forall in H. exact (H aggrId (below_in_seq _ _ Hs)).
  - intros c Hc. exact (Hcore c (below_in_seq _ _ Hc)).
Qed.

Lemma fabric_is_wired_as_a_fat_tree_witness :
  neighbours fabric (PodNode 1 7)
  = [PodNode 1 4; PodNode 1 5; CoreNode 2; CoreNode 3].
Proof.
  destruct fabric_is_wired_as_a_fat_tree as (_ & _ & H & _).
  apply (H 1%nat 1%nat); lia.
Defined.

Lemma fabric_links_recorded_all :
  Forall (λ l,
    ∃ net, Ipv4Address (link_subnet l) = Some net ∧
      (Z.land net 4294967292 = net ∧
       interfaces fabric !! link_key l = Some [net + 1; net + 2] ∧
       mkIface (net + 1) 4294967292 (Some (link_b l)) ∈ ifaces fabric (link_a l) ∧
       mkIface (net + 2) 4294967292 (Some (link_a l)) ∈ ifaces fabric (link_b l) ∧
       Forall (λ l', link_key l' = link_key l → l' = l) (links fabric)))
    (links fabric).
Proof. by_evaluation. Qed.

(** X7. Every link of the k = 4 fabric can be read back: the subnet string
    passed to [SetBase] parses to a /30 base [net]; the container stored in
    [interfaces] under the link's key holds [net + 1] and [net + 2], in
    this order; the first node of the link has an interface with address
    [net + 1] facing the second node and the second node one with
    [net + 2] facing the first; and no other link was stored under the
    same key. *)
Theorem every_link_is_recorded (l : Link) :
  l ∈ links fabric →
  ∃ net, Ipv4Address (link_subnet l) = Some net ∧
    Z.land net 4294967292 = net ∧
    interfaces fabric !! link_key l = Some [net + 1; net + 2] ∧
    mkIface (net + 1) 4294967292 (Some (link_b l)) ∈ ifaces fabric (link_a l) ∧
    mkIface (net + 2) 4294967292 (Some (link_a l)) ∈ ifaces fabric (link_b l) ∧
    ∀ l', l' ∈ links fabric → link_key l' = link_key l → l' = l.
Proof.
  intros Hl. pose proof fabric_links_recorded_all as Hall.
  rewrite Forall_forall in Hall.
  destruct (Hall l Hl) as (net & H1 & H2 & H3 & H4 & H5 & H6).
  exists net. split_and!; try done. by rewrite Forall_forall in H6.
Qed.

Lemma every_link_is_recorded_witness :
  ∃ net, Ipv4Address "10.1.3.20" = Some net ∧
    Z.land net 4294967292 = net ∧
    interfaces fabric !! "pod1_lower0_upper1" = Some [net + 1; net + 2] ∧
    mkIface (net + 1) 4294967292 (Some (PodNode 1 7)) ∈ ifaces fabric (PodNode 1 4) ∧
    mkIface (net + 2) 4294967292 (Some (PodNode 1 4)) ∈ ifaces fabric (PodNode 1 7) ∧
    ∀ l', l' ∈ links fabric → link_key l' = "pod1_lower0_upper1" →
          l' = mkLink (PodNode 1 4) (PodNode 1 7) "10.1.3.20" "pod1_lower0_upper1".
Proof.
  assert (mkLink (PodNode 1 4) (PodNode 1 7) "10.1.3.20" "pod1_lower0_upper1"
          ∈ links fabric) as Hl by by_evaluation.
  exact (every_link_is_recorded _ Hl).
Defined.

(** *** One route per lookup *)

Lemma prefix_go_bounds (fuel : nat) (mask : Z) :
  0 ≤ prefix_go fuel mask ≤ Z.of_nat fuel.
Proof.
  revert mask. induction fuel as [|f IH]; intros mask; [simpl; lia|].
  cbn [prefix_go]. case_decide; [lia|].
  specialize (IH (Z.land (Z.shiftl mask 1) 4294967295)). lia.
Qed.

Lemma GetPrefixLength_bounds (mask : Z) : 0 ≤ GetPrefixLength mask ≤ 32.
Proof. unfold GetPrefixLength. pose proof (prefix_go_bounds 32 mask). lia. Qed.

Lemma longest_mask_app (l1 l2 : list Ipv4RoutingTableEntry) :
  longest_mask (l1 ++ l2) = Z.max (longest_mask l1) (longest_mask l2).
Proof.
  unfold longest_mask. induction l1 as [|r l1 IH]; simpl.
  - assert (0 ≤ foldr Z.max 0 (map (λ r, GetPrefixLength (destMask r)) l2)).
    { induction l2 as [|r l2 IH2]; simpl; lia. }
    lia.
  - rewrite IH. lia.
Qed.

Lemma longest_mask_bounds (l : list Ipv4RoutingTableEntry) :
  0 ≤ longest_mask l ≤ 32.
Proof.
  unfold longest_mask. induction l as [|r l IH]; simpl; [lia|].
  pose proof (GetPrefixLength_bounds (destMask r)). lia.
Qed.

Lemma matching_app (l1 l2 : list Ipv4RoutingTableEntry) (d : Z) :
  matching (l1 ++ l2) d = matching l1 d ++ matching l2 d.
Proof. unfold matching. apply filter_app. Qed.

Lemma longest_mask_elem (l : list Ipv4RoutingTableEntry) (r : Ipv4RoutingTableEntry) :
  r ∈ l → GetPrefixLength (destMask r) ≤ longest_mask l.
Proof.
  unfold longest_mask. induction l as [|x l IH]; [by intros ?%elem_of_nil|].
  intros [->|Hr]%elem_of_cons; simpl; [lia|]. specialize (IH Hr). lia.
Qed.

(** The search keeps, of the entries seen so far, a matching one of the
    longest prefix. *)
Lemma LookupStatic_from_spec (t seen : list Ipv4RoutingTableEntry) (d : Z)
    (rtentry : option Ipv4RoutingTableEntry) (longest : Z) :
  longest = longest_mask (matching seen d) →
  match rtentry with
  | Some r => r ∈ matching seen d ∧ GetPrefixLength (destMask r) = longest
  | None => matching seen d = []
  end →
  match LookupStatic_from t d rtentry longest with
  | Some r => r ∈ matching (seen ++ t) d ∧
              GetPrefixLength (destMask r) = longest_mask (matching (seen ++ t) d)
  | None => matching (seen ++ t) d = []
  end.
Proof.
  revert seen rtentry longest.
  induction t as [|j t IH]; intros seen rtentry longest Hl Hrt.
  - simpl. rewrite app_nil_r. subst longest. exact Hrt.
  - cbn [LookupStatic_from].
    replace (seen ++ j :: t) with ((seen ++ [j]) ++ t) by (by rewrite <- app_assoc).
    assert (matching (seen ++ [j]) d
            = matching seen d
              ++ if decide (IsMatch (destMask j) d (dest j) = true) then [j] else [])
      as Hstep.
    { rewrite matching_app. reflexivity. }
    destruct (IsMatch (destMask j) d (dest j)) eqn:Hm.
    + rewrite decide_True in Hstep by done.
      assert (longest_mask (matching (seen ++ [j]) d)
              = Z.max longest (GetPrefixLength (destMask j))) as Hmax.
      { rewrite Hstep, longest_mask_app, <- Hl. unfold longest_mask. simpl.
        pose proof (GetPrefixLength_bounds (destMask j)). lia. }
      cbn zeta. destruct (decide (GetPrefixLength (destMask j) < longest)) as [Hlt|Hge].
      * apply IH; [rewrite Hmax; lia|].
        destruct rtentry as [r|].
        -- destruct Hrt as [Hr Hlen]. split; [|done].
           rewrite Hstep. apply elem_of_app. by left.
        -- rewrite Hrt in Hl. unfold longest_mask in Hl. simpl in Hl.
           pose proof (GetPrefixLength_bounds (destMask j)). lia.
      * assert (j ∈ matching (seen ++ [j]) d) as Hj.
        { rewrite Hstep. apply elem_of_app. right. by apply list_elem_of_singleton. }
        destruct (decide (GetPrefixLength (destMask j) = 32)) as [H32|Hn32].
        -- split.
           ++ rewrite matching_app. apply elem_of_app. by left.
           ++ pose proof (longest_mask_bounds (matching ((seen ++ [j]) ++ t) d)).
              assert (j ∈ matching ((seen ++ [j]) ++ t) d) as Hj'
                by (rewrite matching_app; apply elem_of_app; by left).
              apply longest_mask_elem in Hj'. lia.
        -- apply IH; [rewrite Hmax; lia|]. split; [done|reflexivity].
    + rewrite decide_False in Hstep by done.
      rewrite app_nil_r in Hstep.
      apply IH; [by rewrite Hstep|]. by rewrite Hstep.
Qed.

(** The route the lookup returns is one of the entries that tie for the
    longest matching prefix, and there is none exactly when nothing
    matches. *)
Lemma LookupStatic_lpm (t : list Ipv4RoutingTableEntry) (d : Z) :
  match LookupStatic t d with
  | Some r => r ∈ lpm_candidates t d
  | None => lpm_candidates t d = []
  end.
Proof.
  pose proof (LookupStatic_from_spec t [] d None 0 eq_refl eq_refl) as H.
  rewrite app_nil_l in H. fold (LookupStatic t d) in H.
  unfold lpm_candidates. destruct (LookupStatic t d) as [r|].
  - destruct H as [Hr Hlen]. by apply list_elem_of_filter.
  - by rewrite H.
Qed.

(** Following every tie covers the journey the single-route lookup
    takes. *)
Lemma static_journey_in_forward (fuel : nat) (w : World) (n : Node) (d : Z) :
  static_journey fuel w n d ∈ forward fuel w n d.
Proof.
  revert n. induction fuel as [|f IH]; intros n; cbn [static_journey forward].
  - destruct (owns w n d); by apply list_elem_of_singleton.
  - destruct (owns w n d); [by apply list_elem_of_singleton|].
    pose proof (LookupStatic_lpm (routing_table w n) d) as Hl.
    destruct (LookupStatic (routing_table w n) d) as [r|].
    + destruct (lpm_candidates (routing_table w n) d) as [|c cs] eqn:Hcs;
        [by apply elem_of_nil in Hl|].
      apply list_elem_of_In, in_flat_map. exists r.
      split; [by apply list_elem_of_In|].
      apply list_elem_of_In.
      destruct (peer_on w n (interface r)) as [p|];
        [|by apply list_elem_of_singleton].
      cbn zeta. apply list_elem_of_In, in_map_iff.
      exists (static_journey f w p d). split; [done|].
      apply list_elem_of_In, IH.
    + rewrite Hl. by apply list_elem_of_singleton.
Qed.

Lemma fabric_static_journeys_all :
  Forall (λ src, Forall (λ dst, src ≠ dst →
    ∃ d, server_address fabric dst.1 dst.2 = Some d ∧
      static_journey 16 fabric (server_node src) d
      = (if decide (src.1 = dst.1)
         then if decide (access_of src = access_of dst)
              then [server_node src; PodNode src.1 (access_of src);
                    server_node dst]
              else [server_node src; PodNode src.1 (access_of src);
                    PodNode src.1 6; PodNode dst.1 (access_of dst);
                    server_node dst]
         else [server_node src; PodNode src.1 (access_of src);
               PodNode src.1 6; CoreNode 1; PodNode dst.1 6;
               PodNode dst.1 (access_of dst); server_node dst],
         Delivered))
    servers) servers.
Proof. by_evaluation. Qed.

(** X8. The journey of a packet between two distinct servers of the k = 4
    fabric when every node forwards along the one route the lookup of
    [Ipv4StaticRouting] returns (of the entries that tie for the longest
    prefix, the one added last): through the shared access switch; or
    through the source's access switch, aggregation switch 0 of the pod and
    the destination's access switch; or, between pods, through the source's
    access switch, aggregation switch 0 of the source pod, core switch 1,
    aggregation switch 0 of the destination pod and the destination's
    access switch.  The packet is delivered, and aggregation switch 1 of
    every pod and the core switches 0, 2 and 3 carry no traffic between
    servers. *)
Theorem static_journey_between_servers (p1 s1 p2 s2 : nat) :
  (p1 < 4)%nat → (s1 < 4)%nat → (p2 < 4)%nat → (s2 < 4)%nat →
  (p1, s1) ≠ (p2, s2) →
  ∃ d, server_address fabric p2 s2 = Some d ∧
    static_journey 16 fabric (PodNode p1 s1) d
    = (if decide (p1 = p2)
       then if decide (access_of (p1, s1) = access_of (p2, s2))
            then [PodNode p1 s1; PodNode p1 (access_of (p1, s1)); PodNode p2 s2]
            else [PodNode p1 s1; PodNode p1 (access_of (p1, s1));
                  PodNode p1 6; PodNode p2 (access_of (p2, s2)); PodNode p2 s2]
       else [PodNode p1 s1; PodNode p1 (access_of (p1, s1));
             PodNode p1 6; CoreNode 1; PodNode p2 6;
             PodNode p2 (access_of (p2, s2)); PodNode p2 s2],
       Delivered).
Proof.
  intros Hp1 Hs1 Hp2 Hs2 Hne.
  pose proof fabric_static_journeys_all as Hall.
  rewrite Forall_forall in Hall.
  specialize (Hall _ (in_servers _ _ Hp1 Hs1)).
  rewrite Forall_forall in Hall.
  exact (Hall _ (in_servers _ _ Hp2 Hs2) Hne).
Qed.

Lemma static_journey_between_servers_witness :
  ∃ d, server_address fabric 2 3 = Some d ∧
    static_journey 16 fabric (PodNode 0 1) d
    = ([PodNode 0 1; PodNode 0 4; PodNode 0 6; CoreNode 1; PodNode 2 6;
        PodNode 2 5; PodNode 2 3], Delivered).
Proof.
  apply (static_journey_between_servers 0 1 2 3); [lia..|]. intros [=].
Defined.

Lemma fabric_aggregates_all :
  Forall (λ l, Forall (λ a,
     Forall (λ pod,
        (IsMatch (pod_prefix pod).2 a (pod_prefix pod).1 = true
         ↔ in_pod pod (link_a l) = true ∧ in_pod pod (link_b l) = true) ∧
        Forall (λ accessId,
          IsMatch (access_prefix pod accessId).2 a (access_prefix pod accessId).1 = true
          ↔ link_b l = PodNode pod (4 + accessId) ∧ is_switch (link_a l) = false)
          (seq 0 2))
       (seq 0 4))
     (default [] (interfaces fabric !! link_key l)))
    (links fabric).
Proof. by_evaluation. Qed.

(** X9. The aggregate prefixes the routes are written for cover the
    address plan exactly, in the k = 4 fabric: an address assigned on a
    link matches the /16 of pod [pod] if and only if both ends of the link
    are nodes of that pod, and it matches the /24 of access switch
    [accessId] of the pod if and only if the link is one between that
    access switch and a server.  In particular no address of an
    aggregation-to-core link matches the /16 of any pod. *)
Theorem aggregates_cover_the_plan_exactly (l : Link) (a : Z) (pod : nat) :
  l ∈ links fabric →
  a ∈ default [] (interfaces fabric !! link_key l) →
  (pod < 4)%nat →
  (IsMatch (pod_prefix pod).2 a (pod_prefix pod).1 = true
   ↔ in_pod pod (link_a l) = true ∧ in_pod pod (link_b l) = true) ∧
  ∀ accessId, (accessId < 2)%nat →
    (IsMatch (access_prefix pod accessId).2 a (access_prefix pod accessId).1 = true
     ↔ link_b l = PodNode pod (4 + accessId) ∧ is_switch (link_a l) = false).
Proof.
  intros Hl Ha Hpod. pose proof fabric_aggregates_all as Hall.
  rewrite Forall_forall in Hall. specialize (Hall l Hl).
  rewrite Forall_forall in Hall. specialize (Hall a Ha).
  rewrite Forall_forall in Hall.
  destruct (Hall pod (below_in_seq _ _ Hpod)) as [H1 H2].
  split; [exact H1|]. intros accessId Hacc.
  rewrite Forall_forall in H2. exact (H2 accessId (below_in_seq _ _ Hacc)).
Qed.

Lemma aggregates_cover_the_plan_exactly_witness :
  let l := mkLink (PodNode 1 7) (CoreNode 2) "10.10.0.36" "pod1_aggr1_core2" in
  (IsMatch (pod_prefix 1).2 168427557 (pod_prefix 1).1 = true
   ↔ in_pod 1 (link_a l) = true ∧ in_pod 1 (link_b l) = true) ∧
  ∀ accessId, (accessId < 2)%nat →
    (IsMatch (access_prefix 1 accessId).2 168427557 (access_prefix 1 accessId).1 = true
     ↔ link_b l = PodNode 1 (4 + accessId) ∧ is_switch (link_a l) = false).
Proof.
  intros l.
  assert (l ∈ links fabric) as Hl by by_evaluation.
  assert (168427557 ∈ default [] (interfaces fabric !! link_key l)) as Ha
    by by_evaluation.
  assert (1 < 4)%nat as Hp by lia.
  exact (aggregates_cover_the_plan_exactly l 168427557 1 Hl Ha Hp).
Defined.

(** *** Forwarding terminates for every destination *)

Lemma floor_boundary_spec (bs : list Z) (d : Z) :
  0 ≤ d →
  0 ≤ floor_boundary bs d ≤ d ∧
  (floor_boundary bs d = 0 ∨ floor_boundary bs d ∈ bs) ∧
  ∀ b, b ∈ bs → b ≤ d → b ≤ floor_boundary bs d.
Proof.
  intros Hd. unfold floor_boundary. induction bs as [|b bs IH]; simpl.
  - split; [lia|]. split; [by left|]. by intros b Hb%elem_of_nil.
  - destruct IH as (Hr & Hin & Hmax). rewrite filter_cons.
    destruct (decide (b ≤ d)) as [Hb|Hb]; simpl.
    + split; [lia|]. split.
      * destruct (Z.max_spec b (foldr Z.max 0 (filter (λ b, b ≤ d) bs)))
          as [[_ ->]|[_ ->]].
        -- destruct Hin as [?|?]; [by left|right; by apply elem_of_cons; right].
        -- right. apply elem_of_cons. by left.
      * intros b' [->|Hb']%elem_of_cons Hle; [lia|].
        specialize (Hmax b' Hb' Hle). lia.
    + split; [done|]. split.
      * destruct Hin as [?|?]; [by left|right; by apply elem_of_cons; right].
      * intros b' [->|Hb']%elem_of_cons Hle; [lia|]. by apply Hmax.
Qed.

(** Membership in an interval whose ends are boundaries is the same for an
    address and for the boundary below it. *)
Lemma interval_at_floor (bs : list Z) (lo hi d : Z) :
  lo ∈ bs → hi + 1 ∈ bs → 0 ≤ d →
  (lo ≤ d ≤ hi ↔ lo ≤ floor_boundary bs d ≤ hi).
Proof.
  intros Hlo Hhi Hd.
  destruct (floor_boundary_spec bs d Hd) as (Hr & _ & Hmax).
  split.
  - intros [H1 H2]. specialize (Hmax lo Hlo H1). lia.
  - intros [H1 H2]. split; [lia|].
    destruct (Z.le_gt_cases d hi) as [?|Hgt]; [done|].
    specialize (Hmax (hi + 1) Hhi). lia.
Qed.

(** A prefix test is an interval test. *)
Lemma IsMatch_covers (r : Ipv4RoutingTableEntry) (d : Z) :
  destMask r ∈ prefix_masks →
  0 ≤ dest r < 2 ^ 32 →
  0 ≤ d < 2 ^ 32 →
  IsMatch (destMask r) d (dest r) = true ↔ (covers r).1 ≤ d ≤ (covers r).2.
Proof.
  intros Hm Hc Hd. unfold IsMatch, covers. rewrite bool_decide_eq_true. simpl.
  unfold prefix_masks in Hm.
  assert (∃ k, 0 ≤ k ≤ 32 ∧ destMask r = 2 ^ 32 - 2 ^ k ∧
               k ∈ [32; 24; 16; 8; 2]) as (k & Hk & -> & Hks).
  { repeat (apply elem_of_cons in Hm as [->|Hm]);
      [exists 32|exists 24|exists 16|exists 8|exists 2|by apply elem_of_nil in Hm];
      (split; [lia|split; [reflexivity|]]);
      apply (bool_decide_unpack _); vm_compute; exact I. }
  rewrite !land_prefix_mask by done.
  assert (0 < 2 ^ k) as Hpow by (apply Z.pow_pos_nonneg; lia).
  pose proof (Z.div_mod d (2 ^ k)) as Hdm.
  pose proof (Z.mod_pos_bound d (2 ^ k) Hpow) as Hdb.
  replace (4294967295 - (2 ^ 32 - 2 ^ k)) with (2 ^ k - 1)
    by (change (2 ^ 32) with 4294967296; lia).
  remember (d / 2 ^ k) as q eqn:Eq. remember (d mod 2 ^ k) as m eqn:Em.
  remember (dest r / 2 ^ k) as q' eqn:Eq'. remember (2 ^ k) as p eqn:Ep.
  clear Eq Em Eq' Ep Hks Hk Hc. split.
  - intros Heq. lia.
  - intros [H1 H2]. f_equal.
    destruct (Z.lt_trichotomy q q') as [Hlt|[->|Hlt]]; [|done|].
    + assert (p * (q + 1) ≤ p * q') by (apply Z.mul_le_mono_nonneg_l; lia). lia.
    + assert (p * (q' + 1) ≤ p * q) by (apply Z.mul_le_mono_nonneg_l; lia). lia.
Qed.

Lemma matching_ext (t : list Ipv4RoutingTableEntry) (d d' : Z) :
  Forall (λ r, IsMatch (destMask r) d (dest r) = true
               ↔ IsMatch (destMask r) d' (dest r) = true) t →
  matching t d = matching t d'.
Proof.
  unfold matching. induction 1 as [|r t Hr _ IH]; [done|].
  rewrite !filter_cons, IH.
  destruct (decide (IsMatch (destMask r) d (dest r) = true)) as [H1|H1],
           (decide (IsMatch (destMask r) d' (dest r) = true)) as [H2|H2];
    try done; exfalso; tauto.
Qed.

Lemma owns_ext (w : World) (n : Node) (d d' : Z) :
  Forall (λ i, if_local i = d ↔ if_local i = d') (ifaces w n) →
  owns w n d = owns w n d'.
Proof.
  unfold owns. induction 1 as [|i l Hi _ IH]; [done|]. simpl. rewrite IH.
  f_equal. destruct (Z.eqb_spec (if_local i) d), (Z.eqb_spec (if_local i) d');
    try done; exfalso; tauto.
Qed.

(** Two destinations that every node treats alike travel alike. *)
Lemma forward_ext (w : World) (d d' : Z) :
  (∀ n, owns w n d = owns w n d') →
  (∀ n, matching (routing_table w n) d = matching (routing_table w n) d') →
  ∀ fuel n, forward fuel w n d = forward fuel w n d'.
Proof.
  intros Ho Hm fuel. induction fuel as [|f IH]; intros n; cbn [forward].
  - by rewrite Ho.
  - rewrite Ho. unfold lpm_candidates. rewrite Hm.
    destruct (owns w n d'); [done|].
    destruct (filter _ _) as [|r cs]; [done|].
    apply flat_map_ext. intros r'. destruct (peer_on w n (interface r')); [|done].
    by rewrite IH.
Qed.

Lemma fabric_nodes_all (n : Node) :
  n ∉ fabric_nodes → ifaces fabric n = [] ∧ table fabric n = [].
Proof.
  assert (Forall (λ p, p.1 ∈ fabric_nodes) (map_to_list (ipv4 fabric)))
    as Hi by by_evaluation.
  assert (Forall (λ p, p.1 ∈ fabric_nodes) (map_to_list (staticRouting fabric)))
    as Hs by by_evaluation.
  rewrite Forall_forall in Hi. rewrite Forall_forall in Hs.
  intros Hn. unfold ifaces, table. split.
  - destruct (ipv4 fabric !! n) as [l|] eqn:E; [|done].
    apply elem_of_map_to_list in E. by apply Hi in E.
  - destruct (staticRouting fabric !! n) as [l|] eqn:E; [|done].
    apply elem_of_map_to_list in E. by apply Hs in E.
Qed.

Lemma boundaries_route (w : World) (ns : list Node) (n : Node)
    (r : Ipv4RoutingTableEntry) :
  n ∈ ns → r ∈ routing_table w n →
  (covers r).1 ∈ boundaries w ns ∧ (covers r).2 + 1 ∈ boundaries w ns.
Proof.
  intros Hn Hr. unfold boundaries.
  split; apply elem_of_remove_dups, list_elem_of_bind; exists n;
    (split; [|done]); apply elem_of_app; left;
    apply list_elem_of_bind; exists r; (split; [|done]); set_solver.
Qed.

Lemma boundaries_iface (w : World) (ns : list Node) (n : Node)
    (i : Ipv4Interface) :
  n ∈ ns → i ∈ ifaces w n →
  if_local i ∈ boundaries w ns ∧ if_local i + 1 ∈ boundaries w ns.
Proof.
  intros Hn Hi. unfold boundaries.
  split; apply elem_of_remove_dups, list_elem_of_bind; exists n;
    (split; [|done]); apply elem_of_app; right;
    apply list_elem_of_bind; exists i; (split; [|done]); set_solver.
Qed.

Lemma fabric_boundaries_eq : boundaries fabric fabric_nodes = fabric_boundaries.
Proof. vm_compute. reflexivity. Qed.

Lemma fabric_edges_eq : link_edge_addresses fabric = fabric_edges.
Proof. vm_compute. reflexivity. Qed.

Lemma fabric_routes_shape :
  Forall (λ n, Forall (λ r, destMask r ∈ prefix_masks ∧ 0 ≤ dest r < 2 ^ 32)
                      (routing_table fabric n)) fabric_nodes.
Proof. by_evaluation. Qed.

Lemma fabric_alike_at_floor (d d' : Z) :
  0 ≤ d < 2 ^ 32 →
  d' = floor_boundary fabric_boundaries d →
  (∀ n, owns fabric n d = owns fabric n d') ∧
  (∀ n, matching (routing_table fabric n) d
        = matching (routing_table fabric n) d').
Proof.
  intros Hd Hd'.
  pose proof fabric_routes_shape as Hshape.
  rewrite Forall_forall in Hshape.
  destruct (floor_boundary_spec fabric_boundaries d) as (Hr & _ & _); [lia|].
  rewrite <- Hd' in Hr.
  assert (0 ≤ d' < 2 ^ 32) as Hrange' by lia.
  split; intros n.
  - apply owns_ext. destruct (decide (n ∈ fabric_nodes)) as [Hn|Hn].
    + apply Forall_forall. intros i Hi.
      destruct (boundaries_iface fabric fabric_nodes n i Hn Hi) as [H1 H2].
      rewrite fabric_boundaries_eq in H1. rewrite fabric_boundaries_eq in H2.
      pose proof (interval_at_floor _ (if_local i) (if_local i) d H1 H2) as Hiff.
      rewrite <- Hd' in Hiff. lia.
    + destruct (fabric_nodes_all n Hn) as [-> _]. constructor.
  - apply matching_ext. destruct (decide (n ∈ fabric_nodes)) as [Hn|Hn].
    + apply Forall_forall. intros r Hr'.
      specialize (Hshape n Hn). rewrite Forall_forall in Hshape.
      destruct (Hshape r Hr') as [Hmask Hrange].
      destruct (boundaries_route fabric fabric_nodes n r Hn Hr') as [H1 H2].
      rewrite fabric_boundaries_eq in H1. rewrite fabric_boundaries_eq in H2.
      rewrite (IsMatch_covers r d Hmask Hrange Hd).
      rewrite (IsMatch_covers r d' Hmask Hrange Hrange').
      rewrite Hd'. apply (interval_at_floor _ _ _ d H1 H2). lia.
    + unfold routing_table, connected_routes.
      destruct (fabric_nodes_all n Hn) as [-> ->]. constructor.
Qed.


Lemma fabric_sound_or_edge_all :
  Forall (λ b, b ∈ fabric_edges ∨
               Forall (λ n, Forall (journey_sound fabric b)
                                   (forward 16 fabric n b)) fabric_nodes)
         (0 :: fabric_boundaries).
Proof. by_evaluation. Qed.

Lemma fabric_edges_next : Forall (λ e, e + 1 ∈ fabric_boundaries) fabric_edges.
Proof. by_evaluation. Qed.

Lemma fabric_assigned_not_edge :
  Forall (λ a, a ∉ fabric_edges) (assigned_addresses fabric).
Proof. by_evaluation. Qed.

(** X10. Forwarding over the tables of the k = 4 fabric never loops, for
    any destination whatever except the base and the top address of a
    link's /30: for every other 32-bit address (in particular for each of
    the 96 assigned interface addresses) and from each of the 36 nodes,
    every journey longest-prefix matching allows ends within the fuel,
    visits no node twice and at most seven nodes, and when it ends in
    delivery it ends at a node that holds the address; otherwise the
    packet is dropped for want of a route. *)
Theorem forwarding_never_loops (n : Node) (d : Z) :
  n ∈ fabric_nodes →
  0 ≤ d < 2 ^ 32 →
  d ∈ assigned_addresses fabric ∨ d ∉ link_edge_addresses fabric →
  Forall (journey_sound fabric d) (forward 16 fabric n d).
Proof.
  intros Hn Hd Hedge. rewrite fabric_edges_eq in Hedge.
  pose proof fabric_assigned_not_edge as Hassigned.
  rewrite Forall_forall in Hassigned.
  assert (d ∉ fabric_edges) as Hedge'
    by (destruct Hedge as [Ha|?]; [by apply Hassigned|done]).
  clear Hedge. rename Hedge' into Hedge.
  remember (floor_boundary fabric_boundaries d) as d' eqn:Ed'.
  destruct (fabric_alike_at_floor d d' Hd Ed') as [Ho Hm].
  rewrite (forward_ext fabric d d' Ho Hm).
  destruct (floor_boundary_spec fabric_boundaries d)
    as (Hr & Hin & Hmax); [lia|]. rewrite <- Ed' in Hr, Hin, Hmax.
  assert (d' ∈ 0 :: fabric_boundaries) as Hd'.
  { destruct Hin as [->|Hin]; apply elem_of_cons; [by left|by right]. }
  pose proof fabric_sound_or_edge_all as Hall.
  rewrite Forall_forall in Hall.
  destruct (Hall d' Hd') as [Hbad|Hgood].
  - exfalso. apply Hedge.
    pose proof fabric_edges_next as Hnext.
    rewrite Forall_forall in Hnext. specialize (Hnext d' Hbad).
    destruct (Z.le_gt_cases (d' + 1) d) as [Hle|Hgt].
    + specialize (Hmax _ Hnext Hle). lia.
    + by replace d with d' by lia.
  - rewrite Forall_forall in Hgood. specialize (Hgood n Hn).
    eapply Forall_impl; [exact Hgood|].
    intros pf. unfold journey_sound. intros (H1 & H2 & H3 & H4).
    split_and!; try done. intros Hdel. destruct (H4 Hdel) as (m & Hl & Hown).
    exists m. split; [done|]. by rewrite Ho.
Qed.

Lemma forwarding_never_loops_witness :
  Forall (journey_sound fabric 3232235777) (forward 16 fabric (PodNode 0 0) 3232235777).
Proof.
  assert (PodNode 0 0 ∈ fabric_nodes) as Hn by by_evaluation.
  assert (0 ≤ 3232235777 < 2 ^ 32) as Hd by (split; [done|reflexivity]).
  assert (3232235777 ∉ link_edge_addresses fabric) as He by by_evaluation.
  exact (forwarding_never_loops _ _ Hn Hd (or_intror He)).
Defined.

Lemma fabric_bounce_all :
  Forall (λ l,
    ∃ net, Ipv4Address (link_subnet l) = Some net ∧
      (owns fabric (link_a l) net = false ∧ owns fabric (link_b l) net = false ∧
       (∃ r, head (lpm_candidates (routing_table fabric (link_a l)) net) = Some r ∧
             (lpm_candidates (routing_table fabric (link_a l)) net = [r] ∧
              peer_on fabric (link_a l) (interface r) = Some (link_b l))) ∧
       (∃ r, head (lpm_candidates (routing_table fabric (link_b l)) net) = Some r ∧
             (lpm_candidates (routing_table fabric (link_b l)) net = [r] ∧
              peer_on fabric (link_b l) (interface r) = Some (link_a l)))))
    (links fabric).
Proof. by_evaluation. Qed.

Lemma bounce_forever (w : World) (a b : Node) (d : Z)
    (ra rb : Ipv4RoutingTableEntry) :
  owns w a d = false → owns w b d = false →
  lpm_candidates (routing_table w a) d = [ra] →
  peer_on w a (interface ra) = Some b →
  lpm_candidates (routing_table w b) d = [rb] →
  peer_on w b (interface rb) = Some a →
  ∀ fuel,
    (∃ path, forward fuel w a d = [(path, OutOfFuel)] ∧ length path = S fuel) ∧
    (∃ path, forward fuel w b d = [(path, OutOfFuel)] ∧ length path = S fuel).
Proof.
  intros Hoa Hob Hca Hpa Hcb Hpb fuel.
  induction fuel as [|f [(pa & IHa & Hla) (pb & IHb & Hlb)]]; cbn [forward].
  - rewrite Hoa, Hob. split; eexists; done.
  - rewrite Hoa, Hob, Hca, Hcb. cbn [flat_map]. rewrite Hpa, Hpb, IHa, IHb.
    split; eexists; (split; [reflexivity|]); simpl; lia.
Qed.

(** X11. An address that lies in an attached /30 but that no interface
    holds is not dropped: in the k = 4 fabric a packet for the base address
    of any link's subnet, once at either end of that link, is sent across
    the link by the other end's route to the attached subnet, back and
    forth, for as long as the fuel lasts (the model has no hop limit to end
    it). *)
Theorem subnet_base_address_bounces (l : Link) (fuel : nat) :
  l ∈ links fabric →
  ∃ net, Ipv4Address (link_subnet l) = Some net ∧
    (∃ path, forward fuel fabric (link_a l) net = [(path, OutOfFuel)] ∧
             length path = S fuel) ∧
    (∃ path, forward fuel fabric (link_b l) net = [(path, OutOfFuel)] ∧
             length path = S fuel).
Proof.
  intros Hl. pose proof fabric_bounce_all as Hall.
  rewrite Forall_forall in Hall.
  destruct (Hall l Hl)
    as (net & Hnet & Hoa & Hob & (ra & _ & Hca & Hpa) & (rb & _ & Hcb & Hpb)).
  exists net. split; [done|].
  exact (bounce_forever fabric _ _ net ra rb Hoa Hob Hca Hpa Hcb Hpb fuel).
Qed.

Lemma subnet_base_address_bounces_witness :
  ∃ net, Ipv4Address "10.0.0.4" = Some net ∧
    (∃ path, forward 40 fabric (PodNode 0 1) net = [(path, OutOfFuel)] ∧
             length path = 41%nat) ∧
    (∃ path, forward 40 fabric (PodNode 0 4) net = [(path, OutOfFuel)] ∧
             length path = 41%nat).
Proof.
  assert (mkLink (PodNode 0 1) (PodNode 0 4) "10.0.0.4" "pod0_server1"
          ∈ links fabric) as Hl by by_evaluation.
  exact (subnet_base_address_bounces _ 40 Hl).
Defined.

Lemma fabric_server_tables_all :
  Forall (λ s,
    ∃ gatewayIP, GetAddress ("pod" +:+ to_string s.1 +:+ "_server"
                             +:+ to_string s.2) 1 fabric = Some gatewayIP ∧
      (table fabric (server_node s) = [mkRoute 0 0 gatewayIP 1] ∧
       peer_on fabric (server_node s) 1 = Some (PodNode s.1 (access_of s)) ∧
       owns fabric (PodNode s.1 (access_of s)) gatewayIP = true))
    servers.
Proof. by_evaluation. Qed.

(** X12. What section 5.1 leaves on a server of the k = 4 fabric: its table
    is the default route and nothing else; the next hop is the second
    address of the server's link, which its access switch holds, and the
    route leaves through interface 1, the server's only link. *)
Theorem server_table_is_one_default_route (pod server : nat) :
  (pod < 4)%nat → (server < 4)%nat →
  ∃ gatewayIP,
    GetAddress ("pod" +:+ to_string pod +:+ "_server" +:+ to_string server) 1 fabric
      = Some gatewayIP ∧
    table fabric (PodNode pod server) = [mkRoute 0 0 gatewayIP 1] ∧
    peer_on fabric (PodNode pod server) 1
      = Some (PodNode pod (access_of (pod, server))) ∧
    owns fabric (PodNode pod (access_of (pod, server))) gatewayIP = true.
Proof.
  intros Hp Hs. pose proof fabric_server_tables_all as Hall.
  rewrite Forall_forall in Hall.
  exact (Hall _ (in_servers _ _ Hp Hs)).
Qed.

Lemma server_table_is_one_default_route_witness :
  ∃ gatewayIP,
    GetAddress "pod3_server2" 1 fabric = Some gatewayIP ∧
    table fabric (PodNode 3 2) = [mkRoute 0 0 gatewayIP 1] ∧
    peer_on fabric (PodNode 3 2) 1 = Some (PodNode 3 5) ∧
    owns fabric (PodNode 3 5) gatewayIP = true.
Proof. apply (server_table_is_one_default_route 3 2); lia. Defined.

Lemma fabric_interfaces_found_all :
  Forall (λ n, Forall (λ r,
      0 < interface r ∧ interface r < Z.of_nat (length (ifaces fabric n)))
    (table fabric n)) fabric_nodes.
Proof. by_evaluation. Qed.

(** X13. Every route installed in the k = 4 fabric is consistent: the
    lookup of the egress interface found one (the index is that of a real
    interface of the node and not the loopback, so [GetInterfaceForAddress]
    never returned -1), and the next hop is an address held by the node at
    the other end of that interface. *)
Theorem installed_routes_are_consistent (n : Node) (r : Ipv4RoutingTableEntry) :
  n ∈ fabric_nodes →
  r ∈ table fabric n →
  0 < interface r < Z.of_nat (length (ifaces fabric n)) ∧
  ∃ p, peer_on fabric n (interface r) = Some p ∧ owns fabric p (gateway r) = true.
Proof.
  intros Hn Hr.
  pose proof fabric_interfaces_found_all as Hidx.
  pose proof next_hops_match_interfaces as Hhop.
  rewrite Forall_forall in Hidx. rewrite Forall_forall in Hhop.
  specialize (Hidx n Hn). specialize (Hhop n Hn).
  rewrite Forall_forall in Hidx. rewrite Forall_forall in Hhop.
  split; [exact (Hidx r Hr)|exact (Hhop r Hr)].
Qed.

Lemma installed_routes_are_consistent_witness :
  let r := mkRoute 167903232 4294901760 168427526 3 in
  0 < interface r < Z.of_nat (length (ifaces fabric (PodNode 1 6))) ∧
  ∃ p, peer_on fabric (PodNode 1 6) (interface r) = Some p ∧
       owns fabric p (gateway r) = true.
Proof.
  intros r.
  assert (PodNode 1 6 ∈ fabric_nodes) as Hn by by_evaluation.
  assert (r ∈ table fabric (PodNode 1 6)) as Hr by by_evaluation.
  exact (installed_routes_are_consistent _ r Hn Hr).
Defined.

End FatTreeFacts.

(** * Properties of the learning switch *)

Module L2SwitchFacts.
Import L2Switch.

Section Received.

Context {Packet : Type}.
Implicit Types (st : L2SwitchProtocol) (out : list (Sent Packet)).

Lemma Learn_devices source inDevice st :
  node_devices (Learn source inDevice st) = node_devices st.
Proof.
  unfold Learn. destruct (m_macTable st !! source); [case_decide|]; done.
Qed.

(** After learning, the source is known on the ingress device and every
    other address is as before. *)
Lemma Learn_lookup source inDevice st mac :
  m_macTable (Learn source inDevice st) !! mac
  = if decide (mac = source) then Some inDevice else m_macTable st !! mac.
Proof.
  unfold Learn. destruct (m_macTable st !! source) as [port|] eqn:Hs.
  - case_decide as Hport; simpl.
    + rewrite lookup_insert. repeat case_decide; congruence.
    + case_decide; congruence.
  - simpl. rewrite lookup_insert. repeat case_decide; congruence.
Qed.

Lemma ForwardBroadcast_via inDevice (packet : Packet) protocol source destination st :
  via <$> ForwardBroadcast inDevice packet protocol source destination st
  = filter (λ device, device ≠ inDevice) (node_devices st).
Proof.
  unfold ForwardBroadcast.
  induction (filter _ _) as [|d l IH]; [done|].
  rewrite !fmap_cons. simpl. by rewrite IH.
Qed.

Lemma copies_via d out :
  copies d out = length (filter (λ x, x = d) (via <$> out)).
Proof.
  unfold copies. induction out as [|s out IH]; [done|].
  rewrite fmap_cons, !filter_cons. simpl.
  destruct (decide (via s = d)); simpl; by rewrite IH.
Qed.

(** In a list without repetitions, [d] occurs once if it is there. *)
Lemma NoDup_occurrences (l : list nat) (d : nat) :
  NoDup l →
  length (filter (λ x, x = d) l) = if decide (d ∈ l) then 1%nat else 0%nat.
Proof.
  induction 1 as [|x l Hx Hnd IH]; [done|].
  rewrite filter_cons. destruct (decide (x = d)) as [->|Hne]; simpl.
  - rewrite IH, (decide_False (P := d ∈ l)) by done.
    rewrite decide_True; [done|]. apply elem_of_cons. by left.
  - rewrite IH. destruct (decide (d ∈ l)) as [Hin|Hin].
    + rewrite decide_True; [done|]. apply elem_of_cons. by right.
    + rewrite decide_False; [done|]. rewrite elem_of_cons. intros [?|?]; congruence.
Qed.

Lemma flood_copies inDevice (packet : Packet) protocol source destination st d :
  NoDup (node_devices st) →
  copies d (ForwardBroadcast inDevice packet protocol source destination st)
  = if decide (d ∈ node_devices st ∧ d ≠ inDevice) then 1%nat else 0%nat.
Proof.
  intros Hnd. rewrite copies_via, ForwardBroadcast_via.
  rewrite NoDup_occurrences by (by apply NoDup_filter).
  destruct (decide (d ∈ filter _ (node_devices st))) as [Hin|Hin];
    rewrite list_elem_of_filter in Hin.
  - rewrite decide_True; [done|]. tauto.
  - rewrite decide_False; [done|]. tauto.
Qed.

(** C10. For every frame received on [inDevice] by a switch whose node has
    pairwise distinct devices:
    - no frame is sent out of [inDevice], and every frame sent carries the
      received packet, addresses and protocol number;
    - a unicast frame whose destination is known on [inDevice] (before or
      after the source is learned) causes no send at all;
    - a broadcast frame, or a unicast frame whose destination is unknown,
      is sent exactly once out of every device of the node other than
      [inDevice], and out of no other device. *)
Theorem never_sent_back_to_ingress (inDevice : nat) (packet : Packet)
    (protocol from to : Z) st :
  NoDup (node_devices st) →
  let h := ReceiveFromDevice inDevice packet protocol from to st in
  returned h = true ∧
  Forall (λ s, via s ≠ inDevice ∧ s_packet s = packet ∧ s_source s = from ∧
               s_destination s = to ∧ s_protocol s = protocol) (sent h) ∧
  (to ≠ broadcast →
   (m_macTable st !! to = Some inDevice ∨
    GetLearnedPort to (after h) = Some inDevice) →
   sent h = []) ∧
  (to = broadcast ∨ GetLearnedPort to (after h) = None →
   ∀ d, copies d (sent h)
        = if decide (d ∈ node_devices st ∧ d ≠ inDevice) then 1%nat else 0%nat).
Proof.
  intros Hnd h.
  assert (Hflood : ∀ out st',
    out = ForwardBroadcast inDevice packet protocol from to st' →
    Forall (λ s, via s ≠ inDevice ∧ s_packet s = packet ∧ s_source s = from ∧
                 s_destination s = to ∧ s_protocol s = protocol) out).
  { intros out st' ->. unfold ForwardBroadcast.
    apply Forall_fmap, Forall_forall. intros d Hd.
    apply list_elem_of_filter in Hd as [Hd _]. by simpl. }
  assert (Hknown : m_macTable st !! to = Some inDevice →
                   GetLearnedPort to (Learn from inDevice st) = Some inDevice).
  { intros Hto. unfold GetLearnedPort. rewrite Learn_lookup. by case_decide. }
  pose proof (Learn_devices from inDevice st) as Hdev.
  subst h. unfold ReceiveFromDevice, IsBroadcast.
  destruct (bool_decide_reflect (to = broadcast)) as [Hb|Hb]; simpl.
  - split_and!; [done|by eapply Hflood|done|].
    intros _ d. rewrite flood_copies by (by rewrite Hdev). by rewrite Hdev.
  - destruct (GetLearnedPort to (Learn from inDevice st)) as [outDevice|] eqn:Hport.
    + destruct (decide (outDevice ≠ inDevice)) as [Hout|Hout]; simpl.
      * split_and!; [done|by repeat constructor| |].
        -- intros _ [Hto|Hto]; [apply Hknown in Hto|]; congruence.
        -- intros [?|?]; congruence.
      * split_and!; [done|by constructor|done|]. intros [?|?]; congruence.
    + simpl. split_and!; [done|by eapply Hflood| |].
      * intros _ [Hto|Hto]; [apply Hknown in Hto|]; congruence.
      * intros _ d. rewrite flood_copies by (by rewrite Hdev). by rewrite Hdev.
Qed.

End Received.

(** A switch with devices 0, 1, 2 that has seen address 5 on device 1
    receives a frame for the unknown address 7 on device 0. *)
Lemma never_sent_back_to_ingress_witness :
  let h := ReceiveFromDevice 0 tt 2048 9 7 (mkProtocol [0; 1; 2]%nat {[5 := 1%nat]}) in
  returned h = true ∧
  Forall (λ s, via s ≠ 0%nat ∧ s_packet s = tt ∧ s_source s = 9 ∧
               s_destination s = 7 ∧ s_protocol s = 2048) (sent h) ∧
  (7 ≠ broadcast →
   (({[5 := 1%nat]} : gmap Z nat) !! 7 = Some 0%nat ∨
    GetLearnedPort 7 (after h) = Some 0%nat) →
   sent h = []) ∧
  (7 = broadcast ∨ GetLearnedPort 7 (after h) = None →
   ∀ d, copies d (sent h)
        = if decide (d ∈ [0; 1; 2]%nat ∧ d ≠ 0%nat) then 1%nat else 0%nat).
Proof.
  assert (NoDup [0; 1; 2]%nat) as Hnd.
  { apply (bool_decide_unpack _). vm_compute. exact I. }
  exact (never_sent_back_to_ingress 0 tt 2048 9 7
           (mkProtocol [0; 1; 2]%nat {[5 := 1%nat]}) Hnd).
Defined.

End L2SwitchFacts.

(** * Properties of sequences of frames at one switch *)
Module L2TraceFacts.
Import L2Switch L2SwitchFacts L2Trace.
Section Facts.
Context {Packet : Type}.
Implicit Types (st : L2SwitchProtocol) (f : Frame Packet) (fs : list (Frame Packet)).

Lemma after_receive f st : after (receive f st) = Learn (f_from f) (f_in f) st.
Proof.
  unfold receive, ReceiveFromDevice.
  destruct (IsBroadcast _); [done|].
  destruct (GetLearnedPort _ _); [case_decide|]; done.
Qed.

Lemma last_seen_cons mac f fs :
  last_seen mac (f :: fs)
  = match last_seen mac fs with
    | Some d => Some d
    | None => if decide (f_from f = mac) then Some (f_in f) else None
    end.
Proof.
  unfold last_seen. rewrite filter_cons.
  destruct (decide (f_from f = mac)) as [Heq|Hne].
  - destruct (filter _ fs) as [|g l] eqn:Hl; [done|].
    rewrite last_cons. destruct (last (g :: l)) eqn:Hlast; [done|].
    by apply last_None in Hlast.
  - by destruct (last _).
Qed.

Lemma learned_port_lookup fs st mac :
  GetLearnedPort mac (receive_all fs st).1
  = match last_seen mac fs with
    | Some d => Some d
    | None => GetLearnedPort mac st
    end.
Proof.
  revert st. induction fs as [|f fs IH]; intros st; [done|].
  simpl. rewrite IH, last_seen_cons, after_receive.
  destruct (last_seen mac fs); [done|].
  unfold GetLearnedPort. rewrite Learn_lookup.
  destruct (decide (f_from f = mac)), (decide (mac = f_from f)); congruence.
Qed.

(** X14. What the switch has learned after any sequence of frames: the port
    of an address is the ingress device of the most recent frame sent by
    that address, whatever the table said before and whatever the frames
    were addressed to; an address that sent no frame is where it was before
    the sequence (unknown, if it was unknown). *)
Theorem learned_port_is_last_ingress fs st mac :
  GetLearnedPort mac (receive_all fs st).1
  = match last_seen mac fs with
    | Some d => Some d
    | None => GetLearnedPort mac st
    end.
Proof. exact (learned_port_lookup fs st mac). Qed.

(** X15. The table only grows: after any sequence of frames it holds
    exactly the addresses it held before and the source addresses of the
    frames.  No entry is ever removed or aged out, and no destination
    address is entered. *)
Theorem table_never_forgets fs st :
  dom (m_macTable (receive_all fs st).1)
  = dom (m_macTable st) ∪ list_to_set (f_from <$> fs).
Proof.
  revert st. induction fs as [|f fs IH]; intros st; simpl.
  - set_solver.
  - rewrite IH, after_receive.
    assert (dom (m_macTable (Learn (f_from f) (f_in f) st))
            = {[f_from f]} ∪ dom (m_macTable st)) as ->.
    { apply set_eq. intros mac. rewrite elem_of_union, !elem_of_dom, Learn_lookup.
      rewrite elem_of_singleton. case_decide; naive_solver. }
    set_solver.
Qed.

(** X16. A frame for an address that has been heard from goes to the port
    it was last heard on, and nowhere else: after any sequence of frames in
    which the most recent one sent by [f_to f] came in through port [p], a
    frame [f] from another address to [f_to f] (not the broadcast address)
    causes exactly one send, out of [p], of the packet as received, when it
    arrives on another port, and no send at all when it arrives on [p]
    itself.  What the switch knew before the sequence plays no role. *)
Theorem known_destination_is_sent_to_its_port fs st f (p : nat) :
  f_to f ≠ broadcast →
  f_from f ≠ f_to f →
  last_seen (f_to f) fs = Some p →
  sent (receive f (receive_all fs st).1)
  = if decide (p ≠ f_in f)
    then [mkSent p (f_packet f) (f_from f) (f_to f) (f_protocol f)]
    else [].
Proof.
  intros Hb Hne Hlast.
  pose proof (learned_port_lookup fs st (f_to f)) as Hport.
  rewrite Hlast in Hport.
  unfold receive, ReceiveFromDevice, IsBroadcast.
  rewrite bool_decide_eq_false_2 by done.
  unfold GetLearnedPort in *. rewrite Learn_lookup.
  rewrite decide_False by congruence. rewrite Hport.
  by destruct (decide (p ≠ f_in f)).
Qed.

End Facts.

Lemma known_destination_is_sent_to_its_port_witness :
  sent (receive (mkFrame 0%nat tt 2048 9 5)
          (receive_all [mkFrame 2%nat tt 2048 5 broadcast;
                        mkFrame 1%nat tt 2048 7 5]
                       (mkProtocol [0; 1; 2]%nat ∅)).1)
  = [mkSent 2%nat tt 9 5 2048].
Proof.
  apply (known_destination_is_sent_to_its_port
           [mkFrame 2%nat tt 2048 5 broadcast; mkFrame 1%nat tt 2048 7 5]
           (mkProtocol [0; 1; 2]%nat ∅) (mkFrame 0%nat tt 2048 9 5) 2%nat);
    [by vm_compute|by vm_compute|reflexivity].
Defined.

End L2TraceFacts.

(** * Properties of the switched network *)
Module L2NetworkFacts.
Import L2Switch L2SwitchFacts L2Trace L2Network.

Ltac evaluate := apply (bool_decide_unpack _); vm_compute; exact I.

Lemma Install_lookup (node : NodeRef) (name : string) (s : Lan) (n : NodeRef) :
  objects (Install node name s) !! n
  = match objects s !! n with
    | Some p => Some p
    | None => if decide (n = node)
              then Some (mkAggregated name (Some node) false ∅) else None
    end.
Proof.
  unfold Install. destruct (objects s !! node) as [p|] eqn:Hnode; simpl.
  - destruct (objects s !! n) eqn:Hn; [done|]. case_decide; congruence.
  - destruct (decide (n = node)) as [->|Hne].
    + by rewrite lookup_insert_eq, Hnode.
    + rewrite lookup_insert_ne by done. by destruct (objects s !! n).
Qed.

Lemma Install_rest (node : NodeRef) (name : string) (s : Lan) :
  devices (Install node name s) = devices s ∧
  channels (Install node name s) = channels s ∧
  callbacks (Install node name s) = callbacks s.
Proof. unfold Install. by destruct (objects s !! node). Qed.

Lemma Install_all_from (nodes : list NodeRef) (s : Lan) (k : nat) (n : NodeRef) :
  let r := (foldl (λ acc n, (Install n ("Switch" +:+ to_string acc.2) acc.1,
                             S acc.2)) (s, k) nodes).1 in
  objects r !! n
  = match objects s !! n with
    | Some p => Some p
    | None => (λ i, mkAggregated ("Switch" +:+ to_string (k + i)) (Some n) false ∅)
              <$> (fst <$> list_find (λ x, x = n) nodes)
    end ∧
  devices r = devices s ∧ channels r = channels s ∧ callbacks r = callbacks s.
Proof.
  revert s k. induction nodes as [|x nodes IH]; intros s k; cbn [foldl fst snd].
  - simpl. by destruct (objects s !! n).
  - destruct (IH (Install x ("Switch" +:+ to_string k) s) (S k))
      as (Ho & Hd & Hc & Hcb).
    destruct (Install_rest x ("Switch" +:+ to_string k) s) as (Hd' & Hc' & Hcb').
    cbn zeta in *. rewrite Ho, Hd, Hc, Hcb, Hd', Hc', Hcb'. split; [|done].
    rewrite Install_lookup. cbn [list_find].
    destruct (objects s !! n) as [p|]; [done|].
    destruct (decide (n = x)) as [->|Hne].
    + rewrite decide_True by done. simpl. by rewrite Nat.add_0_r.
    + rewrite decide_False by congruence.
      destruct (list_find _ nodes) as [[i y]|]; simpl; [|done].
      by rewrite Nat.add_succ_r.
Qed.

(** X17. [L2SwitchHelper::Install] on a container never replaces a
    protocol object: a node that already has one keeps it, with its name,
    its initialisation flag and its learned table.  Any other node of the
    container gets a fresh, uninitialised object with an empty table, named
    [Switch] followed by the position of the node's first occurrence in the
    container (positions of nodes that were skipped are not reused); nodes
    outside the container get nothing, and no device, channel or callback
    changes. *)
Theorem Install_all_keeps_and_names (nodes : list NodeRef) (s : Lan) (n : NodeRef) :
  objects (Install_all nodes s) !! n
  = match objects s !! n with
    | Some p => Some p
    | None => (λ i, mkAggregated ("Switch" +:+ to_string i) (Some n) false ∅)
              <$> (fst <$> list_find (λ x, x = n) nodes)
    end ∧
  devices (Install_all nodes s) = devices s ∧
  channels (Install_all nodes s) = channels s ∧
  callbacks (Install_all nodes s) = callbacks s.
Proof. exact (Install_all_from nodes s 0 n). Qed.

Lemma main_lan : main = Some lan.
Proof. vm_compute. reflexivity. Qed.

Lemma send_all_snoc (ms : list Message) (m : Message) (s : Lan) :
  send_all (ms ++ [m]) s
  = s' ← send_all ms s; fst <$> send m.1 tt 2048 m.2 s'.
Proof. unfold send_all. by rewrite foldl_app. Qed.

Lemma reachable_step_all :
  Forall (λ s, Forall (λ m,
      ∃ r, send m.1 tt 2048 m.2 s = Some r ∧
        (r.1 ∈ reachable ∧
         NoDup (f_in <$> r.2) ∧
         hosts_served s r.2
           ≡ₚ filter (λ j, j ≠ m.1 ∧
                           (m.2 = broadcast ∨ host_address s j = Some m.2))
                     (seq 0 3) ∧
         quiet r.1 m.1 ∧
         Forall (λ t, quiet s t → quiet r.1 t) (seq 0 3)))
    messages) reachable.
Proof. evaluate. Qed.

Lemma send_all_reachable (ms : list Message) :
  Forall (λ m, m ∈ messages) ms →
  ∃ s, send_all ms lan = Some s ∧ s ∈ reachable ∧
       ∀ t, t ∈ ms.*1 → quiet s t.
Proof.
  induction ms as [|m ms IH] using rev_ind; intros Hms.
  - exists lan. split; [done|]. split; [evaluate|].
    intros t Ht. by apply elem_of_nil in Ht.
  - apply Forall_app in Hms as [Hms Hm]. rewrite Forall_singleton in Hm.
    destruct (IH Hms) as (s & Hs & Hreach & Hquiet).
    pose proof reachable_step_all as Hall.
    rewrite Forall_forall in Hall. specialize (Hall s Hreach).
    rewrite Forall_forall in Hall.
    destruct (Hall m Hm) as (r & Hr & Hr1 & _ & _ & Hq & Hkeep).
    exists r.1. rewrite send_all_snoc, Hs. simpl. rewrite Hr. simpl.
    split; [done|]. split; [done|].
    intros t Ht. rewrite fmap_app in Ht. apply elem_of_app in Ht as [Ht|Ht].
    + rewrite Forall_forall in Hkeep. apply Hkeep; [|by apply Hquiet].
      assert (Forall (λ m, (m.1 < 3)%nat) messages) as Hlt by evaluate.
      rewrite Forall_forall in Hlt.
      apply list_elem_of_fmap in Ht as (m' & -> & Hm').
      rewrite Forall_forall in Hms. apply elem_of_seq.
      specialize (Hlt m' (Hms m' Hm')). lia.
    + apply list_elem_of_singleton in Ht. by subst t.
Qed.

(** X18. Over the network [main] builds, after any sequence of messages
    between the hosts, a frame a host sends is handed to exactly the hosts
    it is for: to the addressed host once and to no other, or, when it is
    for everyone, once to each of the two other hosts.  The frame is
    propagated to completion, and no device sees it twice. *)
Theorem every_frame_is_delivered_once (ms : list Message) (m : Message) :
  Forall (λ m, m ∈ messages) ms →
  m ∈ messages →
  ∃ s, send_all ms lan = Some s ∧
  ∃ r, send m.1 tt 2048 m.2 s = Some r ∧
    NoDup (f_in <$> r.2) ∧
    hosts_served s r.2
      ≡ₚ filter (λ j, j ≠ m.1 ∧ (m.2 = broadcast ∨ host_address s j = Some m.2))
                (seq 0 3).
Proof.
  intros Hms Hm.
  destruct (send_all_reachable ms Hms) as (s & Hs & Hreach & _).
  exists s. split; [done|].
  pose proof reachable_step_all as Hall.
  rewrite Forall_forall in Hall. specialize (Hall s Hreach).
  rewrite Forall_forall in Hall.
  destruct (Hall m Hm) as (r & Hr & _ & Hnd & Hserved & _).
  by exists r.
Qed.

Lemma every_frame_is_delivered_once_witness :
  ∃ s, send_all [(1%nat, 9); (2%nat, broadcast)] lan = Some s ∧
  ∃ r, send 0 tt 2048 9 s = Some r ∧
    NoDup (f_in <$> r.2) ∧
    hosts_served s r.2
      ≡ₚ filter (λ j, j ≠ 0%nat ∧ (9 = broadcast ∨ host_address s j = Some 9))
                (seq 0 3).
Proof.
  assert (Forall (λ m, m ∈ messages) [(1%nat, 9); (2%nat, broadcast)]) as Hms
    by evaluate.
  assert ((0%nat, 9) ∈ messages) as Hm by evaluate.
  exact (every_frame_is_delivered_once _ (0%nat, 9) Hms Hm).
Defined.

(** X19. Flooding stops once the destination has spoken: over the network
    [main] builds, when host [t] has sent any message at all, every frame
    another host sends to [t] afterwards, whatever else was sent in
    between, reaches the device of [t] and the device of no other host. *)
Theorem flooding_stops_once_destination_has_spoken (ms : list Message) (t i : nat) :
  Forall (λ m, m ∈ messages) ms →
  t ∈ ms.*1 →
  (i < 3)%nat → i ≠ t →
  ∃ s, send_all ms lan = Some s ∧
  ∃ to, host_address s t = Some to ∧
  ∃ r, send i tt 2048 to s = Some r ∧ hosts_reached s r.2 = [t].
Proof.
  intros Hms Ht Hi Hne.
  destruct (send_all_reachable ms Hms) as (s & Hs & _ & Hquiet).
  exists s. split; [done|].
  destruct (Hquiet t Ht) as (to & Hto & Hall). exists to. split; [done|].
  rewrite Forall_forall in Hall. apply Hall; [|done].
  apply elem_of_seq. lia.
Qed.

Lemma flooding_stops_once_destination_has_spoken_witness :
  ∃ s, send_all [(2%nat, broadcast); (0%nat, 5)] lan = Some s ∧
  ∃ to, host_address s 2 = Some to ∧
  ∃ r, send 1 tt 2048 to s = Some r ∧ hosts_reached s r.2 = [2%nat].
Proof.
  assert (Forall (λ m, m ∈ messages) [(2%nat, broadcast); (0%nat, 5)]) as Hms
    by evaluate.
  assert (2%nat ∈ [(2%nat, broadcast); (0%nat, 5)].*1) as Ht by evaluate.
  assert (1 < 3)%nat as Hi by lia.
  assert (1%nat ≠ 2%nat) as Hne by lia.
  exact (flooding_stops_once_destination_has_spoken _ 2 1 Hms Ht Hi Hne).
Defined.

Lemma devices_on_NoDup (s : Lan) (n : NodeRef) : NoDup (devices_on s n).
Proof. unfold devices_on. apply NoDup_filter, NoDup_seq. Qed.

Lemma filter_agree {A} (P Q : A → Prop) `{!∀ x, Decision (P x)}
    `{!∀ x, Decision (Q x)} (l : list A) :
  Forall (λ x, P x ↔ Q x) l → filter P l = filter Q l.
Proof.
  induction 1 as [|x l Hx _ IH]; [done|].
  rewrite !filter_cons, IH.
  destruct (decide (P x)), (decide (Q x)); try done; exfalso; tauto.
Qed.

Lemma devices_on_csma_Install (s : Lan) (n x : NodeRef) :
  x ≠ n →
  devices_on (csma_Install [n; x] s) n = devices_on s n ++ [length (devices s)].
Proof.
  intros Hx. unfold devices_on, csma_Install. cbn [devices imap].
  rewrite length_app. cbn [length].
  rewrite seq_app, filter_app. f_equal.
  - apply filter_agree. apply Forall_forall. intros dev Hdev.
    apply elem_of_seq in Hdev. rewrite lookup_app_l by lia. done.
  - cbn [seq]. rewrite Nat.add_0_l.
    rewrite filter_cons, decide_True.
    2:{ rewrite lookup_app_r by lia. by rewrite Nat.sub_diag. }
    rewrite filter_cons, decide_False; [done|].
    rewrite lookup_app_r by lia.
    replace (S (length (devices s)) - length (devices s))%nat with 1%nat by lia.
    simpl. congruence.
Qed.

Section Deaf.
Context {Packet : Type}.

(** X20. A device that is added to a switch after [Initialize] is flooded to
    but never listened on.  When the protocol object of node [n] is
    initialised and a new link is then installed between [n] and another
    node, calling [Initialize] again changes nothing (the object is marked
    initialised), so no callback is bound to the new device: a frame
    arriving there is not handled, nothing is learned from it and nothing
    is forwarded.  Flooding, however, walks the devices the node has at
    that moment: a broadcast frame arriving on a bound device of [n] is
    sent out of the new device once. *)
Theorem device_added_after_Initialize_is_deaf (s : Lan) (n x : NodeRef)
    (p : Aggregated) (f : Frame Packet) :
  objects s !! n = Some p →
  m_initialized p = true →
  m_node p = Some n →
  callbacks s !! length (devices s) = None →
  x ≠ n →
  let s' := csma_Install [n; x] s in
  let new := length (devices s) in
  Initialize n s' = Some s' ∧
  devices_on s' n = devices_on s n ++ [new] ∧
  (f_in f = new → arrive f s' = Some (s', [])) ∧
  (callbacks s !! f_in f = Some n → f_to f = broadcast →
   ∃ r, arrive f s' = Some r ∧ copies new r.2 = 1%nat).
Proof.
  intros Hp Hinit Hnode Hcb Hx s' new.
  pose proof (devices_on_csma_Install s n x Hx) as Hdev. fold s' new in Hdev.
  split_and!.
  - unfold Initialize. change (objects s') with (objects s).
    rewrite Hp. simpl. by rewrite Hinit.
  - done.
  - intros Hin. unfold arrive.
    change (callbacks s') with (callbacks s). fold new in Hcb.
    by rewrite Hin, Hcb.
  - intros Hbound Hto. unfold arrive.
    change (callbacks s') with (callbacks s). change (objects s') with (objects s).
    rewrite Hbound, Hp. simpl. rewrite Hnode. simpl.
    eexists. split; [reflexivity|]. cbn [snd].
    unfold receive, ReceiveFromDevice, IsBroadcast.
    rewrite bool_decide_eq_true_2 by done. cbn [sent].
    rewrite flood_copies.
    + rewrite Learn_devices. cbn [node_devices]. rewrite decide_True; [done|].
      split.
      * rewrite Hdev. apply elem_of_app. right. by apply list_elem_of_singleton.
      * intros Heq. unfold new in Heq. rewrite <- Heq in Hbound. congruence.
    + rewrite Learn_devices. apply devices_on_NoDup.
Qed.

End Deaf.

Lemma device_added_after_Initialize_is_deaf_witness :
  let s' := csma_Install [Switch 2; Host 3] lan in
  Initialize (Switch 2) s' = Some s' ∧
  devices_on s' (Switch 2) = devices_on lan (Switch 2) ++ [10%nat] ∧
  (7%nat = 10%nat →
   arrive (mkFrame 7%nat tt 2048 1 broadcast) s' = Some (s', [])) ∧
  (callbacks lan !! 7%nat = Some (Switch 2) → broadcast = broadcast →
   ∃ r, arrive (mkFrame 7%nat tt 2048 1 broadcast) s' = Some r ∧
        copies 10%nat r.2 = 1%nat).
Proof.
  assert (∃ p, objects lan !! Switch 2 = Some p ∧
               (m_initialized p = true ∧ m_node p = Some (Switch 2)))
    as (p & Hp & Hinit & Hnode)
    by (apply (bool_decide_unpack _); vm_compute; exact I).
  assert (callbacks lan !! length (devices lan) = None) as Hcb by reflexivity.
  assert (Host 3 ≠ Switch 2) as Hx by done.
  exact (device_added_after_Initialize_is_deaf lan (Switch 2) (Host 3) p
           (mkFrame 7%nat tt 2048 1 broadcast) Hp Hinit Hnode Hcb Hx).
Defined.

End L2NetworkFacts.
